(** * brewcop: the scale protocol and the pot monitor

    A shallow embedding of the C sources of the repository:

    - [scale.c]      [scale_read], the [fscanf]-driven reader of the
                     Avery-Berkel 6702 bench scale;
    - [test/query.c] [read_response], [parse_status], [parse_value] and
                     [main], the fixed-width reader of the same protocol;
    - [pot.c]        [pot_init], [pot_update] and the body of [pot_checker].

    Conventions of the embedding.

    - A [char] is an [ascii]; a buffer or a stream is a [list ascii].
    - A C [float] or [double] is idealised as an exact rational ([Q]): the
      binary rounding of [strtof]/[strtod] and of the float operations is
      not modelled.  Concrete inputs used below are chosen so that every
      intermediate value is exactly representable in binary32.
    - A C [int] is a [Z]; the conversion of a float to [int] is undefined
      outside the range of [int] and is modelled as [None] there.
    - The C library ([fputs], [fscanf], [strtod]) is modelled after
      ISO C11 7.21.6.2 and 7.22.1.3, for the decimal form of numbers. *)

From Stdlib Require Import ZArith QArith Qround Qpower Ascii String List Lia.
From stdpp Require Import gmap strings.
Import ListNotations.

Close Scope Q_scope.
Local Open Scope Z_scope.

(* ===================================================================== *)
(** * Characters *)
(* ===================================================================== *)

Module Ch.

Definition code (c : ascii) : Z := Z.of_nat (nat_of_ascii c).

Definition LF  : ascii := ascii_of_nat 10.   (* '\n'   *)
Definition CR  : ascii := ascii_of_nat 13.   (* '\r'   *)
Definition ETX : ascii := ascii_of_nat 3.    (* '\003' *)
Definition NUL : ascii := ascii_of_nat 0.

(** [isspace] in the "C" locale: space, \t, \n, \v, \f, \r. *)
Definition isspace (c : ascii) : bool :=
  (code c =? 32) || ((9 <=? code c) && (code c <=? 13)).

Definition isdigit (c : ascii) : bool :=
  (48 <=? code c) && (code c <=? 57).

Definition digit_val (c : ascii) : Z := code c - 48.

Definition is_sign (c : ascii) : bool :=
  (code c =? 43) || (code c =? 45).          (* '+' or '-' *)

Definition is_minus (c : ascii) : bool := code c =? 45.

Definition is_point (c : ascii) : bool := code c =? 46.   (* '.' *)

Definition is_exp (c : ascii) : bool :=
  (code c =? 101) || (code c =? 69).         (* 'e' or 'E' *)

Definition eqc (a b : ascii) : bool := code a =? code b.

(** A string literal of the source as a list of characters. *)
Definition str (s : string) : list ascii := list_ascii_of_string s.

End Ch.
Import Ch.

(* ===================================================================== *)
(** * The C library: numeric subject sequences *)
(* ===================================================================== *)

(** The decimal floating subject sequence of [strtod] (C11 7.22.1.3):
    an optional sign, a nonempty sequence of digits optionally containing
    a radix character, then an optional exponent part.  It is recognised
    by a small automaton; the accumulator carries what is needed for the
    value.  The hexadecimal, INF and NAN forms are not part of the model. *)
Module Num.

Inductive fstate :=
| FStart        (* nothing read yet *)
| FSign         (* a sign *)
| FInt          (* digits of the integer part *)
| FPoint        (* a radix character with no digit before it *)
| FFrac         (* a radix character with a digit before or after it *)
| FExpMark      (* e or E *)
| FExpSign      (* e or E and a sign *)
| FExpDigits.   (* digits of the exponent *)

Record facc := mkAcc {
  neg   : bool;   (* sign of the number *)
  mant  : Z;      (* all digits read, as one integer *)
  nfrac : Z;      (* how many of them follow the radix character *)
  eneg  : bool;   (* sign of the exponent *)
  expo  : Z       (* magnitude of the exponent *)
}.

Definition acc0 : facc := mkAcc false 0 0 false 0.

Definition push_int (a : facc) (c : ascii) : facc :=
  mkAcc (neg a) (10 * mant a + digit_val c) (nfrac a) (eneg a) (expo a).

Definition push_frac (a : facc) (c : ascii) : facc :=
  mkAcc (neg a) (10 * mant a + digit_val c) (nfrac a + 1) (eneg a) (expo a).

Definition push_exp (a : facc) (c : ascii) : facc :=
  mkAcc (neg a) (mant a) (nfrac a) (eneg a) (10 * expo a + digit_val c).

Definition set_neg (a : facc) (c : ascii) : facc :=
  mkAcc (is_minus c) (mant a) (nfrac a) (eneg a) (expo a).

Definition set_eneg (a : facc) (c : ascii) : facc :=
  mkAcc (neg a) (mant a) (nfrac a) (is_minus c) (expo a).

(** One transition; [None] when [c] cannot extend the sequence. *)
Definition fstep (st : fstate) (a : facc) (c : ascii)
  : option (fstate * facc) :=
  match st with
  | FStart =>
      if is_sign c then Some (FSign, set_neg a c)
      else if isdigit c then Some (FInt, push_int a c)
      else if is_point c then Some (FPoint, a)
      else None
  | FSign =>
      if isdigit c then Some (FInt, push_int a c)
      else if is_point c then Some (FPoint, a)
      else None
  | FInt =>
      if isdigit c then Some (FInt, push_int a c)
      else if is_point c then Some (FFrac, a)
      else if is_exp c then Some (FExpMark, a)
      else None
  | FPoint =>
      if isdigit c then Some (FFrac, push_frac a c) else None
  | FFrac =>
      if isdigit c then Some (FFrac, push_frac a c)
      else if is_exp c then Some (FExpMark, a)
      else None
  | FExpMark =>
      if is_sign c then Some (FExpSign, set_eneg a c)
      else if isdigit c then Some (FExpDigits, push_exp a c)
      else None
  | FExpSign =>
      if isdigit c then Some (FExpDigits, push_exp a c) else None
  | FExpDigits =>
      if isdigit c then Some (FExpDigits, push_exp a c) else None
  end.

(** States in which what has been read is a complete subject sequence. *)
Definition complete (st : fstate) : bool :=
  match st with
  | FInt | FFrac | FExpDigits => true
  | _ => false
  end.

(** The value of what has been read: (+-) mant * 10 ^ (+-expo - nfrac),
    as a fraction in lowest terms. *)
Definition fvalue (a : facc) : Q :=
  let m := if neg a then - mant a else mant a in
  let e := (if eneg a then - expo a else expo a) - nfrac a in
  Qred (inject_Z m * Qpower (inject_Z 10) e)%Q.

(** Runs the automaton as far as it goes: the longest prefix of [s] that
    is, or is a prefix of, a subject sequence.  Returns the state
    reached, the accumulator and what is left of [s]. *)
Fixpoint frun (st : fstate) (a : facc) (s : list ascii)
  : fstate * facc * list ascii :=
  match s with
  | [] => (st, a, [])
  | c :: r =>
      match fstep st a c with
      | Some (st', a') => frun st' a' r
      | None => (st, a, s)
      end
  end.

(** Runs the automaton and remembers the last complete position:
    [best] is the value there and the number of characters up to it;
    [n] counts the characters read so far. *)
Fixpoint fbest (st : fstate) (a : facc) (s : list ascii)
         (n : nat) (best : Q * nat) : Q * nat :=
  let best' := if complete st then (fvalue a, n) else best in
  match s with
  | [] => best'
  | c :: r =>
      match fstep st a c with
      | Some (st', a') => fbest st' a' r (S n) best'
      | None => best'
      end
  end.

Fixpoint skip_space (s : list ascii) : list ascii :=
  match s with
  | c :: r => if isspace c then skip_space r else s
  | [] => []
  end.

(** [strtod (nptr, &endptr)]: the value and [endptr - nptr].  Leading
    white space is skipped; when no conversion can be performed the
    value is zero and [endptr = nptr]. *)
Definition strtod (s : list ascii) : Q * nat :=
  let s' := skip_space s in
  let lead := (length s - length s')%nat in
  match fbest FStart acc0 s' 0%nat (0%Q, 0%nat) with
  | (_, O) => (0%Q, O)
  | (v, n) => (v, (lead + n)%nat)
  end.

(** [strtof (s, NULL)], idealised like [strtod]. *)
Definition strtof (s : list ascii) : Q := fst (strtod s).

(** The decimal integer subject sequence of a [%d] conversion: an
    optional sign and digits.  Returns the digits' value, whether at
    least one digit was read, and the rest. *)
Fixpoint drun (acc : Z) (got : bool) (s : list ascii)
  : Z * bool * list ascii :=
  match s with
  | c :: r => if isdigit c then drun (10 * acc + digit_val c) true r
              else (acc, got, s)
  | [] => (acc, got, [])
  end.

End Num.

(* ===================================================================== *)
(** * The C library: formatted input *)
(* ===================================================================== *)

(** [fscanf] after C11 7.21.6.2, for the directives the sources use:
    white space, ordinary characters, [%f] and [%d].

    - A white-space directive reads input up to the first character that
      is not white space, which stays unread; it never fails (p5).
    - An ordinary character must be the next character of the input;
      otherwise the directive fails and that character stays unread (p6).
    - A conversion skips white space (p8), then reads the longest sequence
      of characters that is, or is a prefix of, a matching input sequence;
      the first character after it stays unread (p9).  When that sequence
      is empty or is not a matching sequence the directive fails (p9, p10):
      what was read of it is gone from the stream.
    - The result is the number of items assigned, or [EOF] when the input
      ends before the first conversion has completed (p16). *)
Module Scanf.

Inductive directive :=
| DSpace
| DLit (c : ascii)
| DFloat          (* %f *)
| DInt.           (* %d *)

Inductive arg :=
| AFloat (q : Q)
| AInt (z : Z).

Definition EOF : Z := -1.

Fixpoint parse_format (fmt : list ascii) : list directive :=
  match fmt with
  | [] => []
  | c :: r =>
      if eqc c "%"
      then match r with
           | k :: r' =>
               if eqc k "f" then DFloat :: parse_format r'
               else if eqc k "d" then DInt :: parse_format r'
               else DLit c :: parse_format r
           | [] => [DLit c]
           end
      else if isspace c then DSpace :: parse_format r
      else DLit c :: parse_format r
  end.

(** What one directive does to the input. *)
Inductive outcome :=
| Matched (assigned : option arg) (rest : list ascii)
| MatchFailure (rest : list ascii)
| InputFailure.

Definition conv_float (s : list ascii) : outcome :=
  match Num.skip_space s with
  | [] => InputFailure
  | s' =>
      let '(st, a, rest) := Num.frun Num.FStart Num.acc0 s' in
      if Num.complete st
      then Matched (Some (AFloat (Num.fvalue a))) rest
      else MatchFailure rest
  end.

Definition conv_int (s : list ascii) : outcome :=
  match Num.skip_space s with
  | [] => InputFailure
  | c :: r =>
      let body := if is_sign c then r else c :: r in
      let '(v, got, rest) := Num.drun 0 false body in
      if got
      then Matched (Some (AInt (if is_sign c && is_minus c then - v else v)))
                   rest
      else MatchFailure rest
  end.

Definition exec (d : directive) (s : list ascii) : outcome :=
  match d with
  | DSpace => Matched None (Num.skip_space s)
  | DLit c =>
      match s with
      | [] => InputFailure
      | x :: r => if eqc x c then Matched None r else MatchFailure s
      end
  | DFloat => conv_float s
  | DInt => conv_int s
  end.

(** Runs the directives in order; [args] are the items assigned so far
    (most recent first). *)
Fixpoint run (ds : list directive) (args : list arg) (s : list ascii)
  : Z * list arg * list ascii :=
  match ds with
  | [] => (Z.of_nat (length args), rev args, s)
  | d :: ds' =>
      match exec d s with
      | Matched None rest => run ds' args rest
      | Matched (Some a) rest => run ds' (a :: args) rest
      | MatchFailure rest => (Z.of_nat (length args), rev args, rest)
      | InputFailure =>
          (match args with [] => EOF | _ => Z.of_nat (length args) end,
           rev args, [])
      end
  end.

(** [sscanf]-style core of [fscanf]: the return value, the items
    assigned in order, and the unread input. *)
Definition scanf (fmt : list ascii) (s : list ascii)
  : Z * list arg * list ascii :=
  run (parse_format fmt) [] s.

End Scanf.


(* ===================================================================== *)
(** * scale.c *)
(* ===================================================================== *)

Module Scale.

(** ** The serial line

    The scale answers each query written to the line.  [device] gives,
    for the n-th write (counted from 0), either the error number of a
    failed write or the bytes the scale sends back.  The [FILE] holds
    the bytes received and not yet read, and the strings written so
    far.  Reading past the bytes received is an end of file. *)

Inductive reply :=
| WriteError (e : Z)
| Reply (bytes : list ascii).

Definition device := nat -> reply.

Record FILE := mkFILE {
  unread  : list ascii;
  written : list (list ascii)
}.

(** What [scale_read] can change: the stream, [errno], and the cell
    [wp] points to, with the number of stores made to it. *)
Record state := mkState {
  fp     : FILE;
  errno  : Z;
  wp     : Q;
  stores : nat
}.

(** <errno.h> of Linux. *)
Definition EDOM   : Z := 33.
Definition ERANGE : Z := 34.
Definition EPROTO : Z := 71.

(** [fputs (s, fp)]: negative on error, with [errno] set. *)
Definition fputs (dev : device) (s : list ascii) (st : state) : Z * state :=
  match dev (length (written (fp st))) with
  | WriteError e => (-1, mkState (fp st) e (wp st) (stores st))
  | Reply bytes =>
      (1, mkState (mkFILE (unread (fp st) ++ bytes)
                          (written (fp st) ++ [s]))
                  (errno st) (wp st) (stores st))
  end.

Definition set_unread (u : list ascii) (st : state) : state :=
  mkState (mkFILE u (written (fp st))) (errno st) (wp st) (stores st).

(** [fscanf (fp, fmt, ...)]: the return value and the items assigned. *)
Definition fscanf (fmt : list ascii) (st : state)
  : Z * list Scanf.arg * state :=
  let '(n, args, rest) := Scanf.scanf fmt (unread (fp st)) in
  (n, args, set_unread rest st).

(** The [i]-th item assigned by a call, as the local it was stored in.
    The locals of [scale_read] are read only after a call has assigned
    them; unassigned they read as 0 here. *)
Definition float_item (args : list Scanf.arg) (i : nat) : Q :=
  match nth_error args i with
  | Some (Scanf.AFloat q) => q
  | _ => 0%Q
  end.

Definition int_item (args : list Scanf.arg) (i : nat) : Z :=
  match nth_error args i with
  | Some (Scanf.AInt z) => z
  | _ => 0
  end.

Definition set_errno (e : Z) (st : state) : state :=
  mkState (fp st) e (wp st) (stores st).

(** [*wp = v] *)
Definition store_wp (v : Q) (st : state) : state :=
  mkState (fp st) (errno st) v (S (stores st)).

(** The string literals of [scale_read]. *)
Definition query : list ascii := str "W" ++ [CR].               (* "W\r" *)
Definition fmt_value : list ascii :=          (* "\n%fLB\r\nS%d\r\003" *)
  [LF] ++ str "%fLB" ++ [CR; LF] ++ str "S%d" ++ [CR; ETX].
Definition fmt_over : list ascii :=           (* "\n^^^^^^\r\nS%d\r\003" *)
  [LF] ++ str "^^^^^^" ++ [CR; LF] ++ str "S%d" ++ [CR; ETX].
Definition fmt_under : list ascii :=          (* "\n______\r\nS%d\r\003" *)
  [LF] ++ str "______" ++ [CR; LF] ++ str "S%d" ++ [CR; ETX].
Definition fmt_zero : list ascii :=           (* "\n------\r\nS%d\r\003" *)
  [LF] ++ str "------" ++ [CR; LF] ++ str "S%d" ++ [CR; ETX].
Definition fmt_status : list ascii :=         (* "\nS%d\r\003" *)
  [LF] ++ str "S%d" ++ [CR; ETX].

(** What the chain of [fscanf] calls of [scale_read] decides, named
    after the comments of the source. *)
Inductive response :=
| Value (weight : Q) (status : Z)   (* goto done *)
| OverCapacity (status : Z)
| UnderCapacity (status : Z)
| ZeroingError (status : Z)
| StatusOnly (status : Z)           (* goto again *)
| Unknown.

(** Lines 40 to 60 of scale.c: the five [fscanf] calls, each one reading
    what the previous ones left in the stream. *)
Definition scan_response (st : state) : response * state :=
  let '(n1, a1, st1) := fscanf fmt_value st in
  if n1 =? 2 then (Value (float_item a1 0) (int_item a1 1), st1)
  else
    (* over capacity *)
    let '(n2, a2, st2) := fscanf fmt_over st1 in
    if n2 =? 1 then (OverCapacity (int_item a2 0), st2)
    else
      (* under capacity *)
      let '(n3, a3, st3) := fscanf fmt_under st2 in
      if n3 =? 1 then (UnderCapacity (int_item a3 0), st3)
      else
        (* zeroing error *)
        let '(n4, a4, st4) := fscanf fmt_zero st3 in
        if n4 =? 1 then (ZeroingError (int_item a4 0), st4)
        else
          (* status only (e.g. scale in motion) *)
          let '(n5, a5, st5) := fscanf fmt_status st4 in
          if n5 =? 1 then (StatusOnly (int_item a5 0), st5)
          else
            (* Unknown response *)
            (Unknown, st5).

(** [int scale_read (FILE *fp, float *wp)].  The [goto again] loop is
    unrolled [fuel] times; [None] means the loop is still running when
    the fuel is spent. *)
Fixpoint scale_read (fuel : nat) (dev : device) (st : state)
  : option (Z * state) :=
  match fuel with
  | O => None
  | S fuel' =>
      (* again: *)
      let (r, st0) := fputs dev query st in
      if r <? 0 then Some (-1, st0)                        (* goto error *)
      else
        match scan_response st0 with
        | (Value weight _, st1) =>                         (* done: *)
            Some (0, store_wp weight st1)
        | (OverCapacity _, st1) => Some (-1, set_errno ERANGE st1)
        | (UnderCapacity _, st1) => Some (-1, set_errno ERANGE st1)
        | (ZeroingError _, st1) => Some (-1, set_errno EDOM st1)
        | (StatusOnly _, st1) => scale_read fuel' dev st1  (* goto again *)
        | (Unknown, st1) => Some (-1, set_errno EPROTO st1)
        end
  end.

(** A state before the first query. *)
Definition start (w : Q) : state := mkState (mkFILE [] []) 0 w 0.

(** The frames of the scale. *)
Definition value_frame (field status : list ascii) : list ascii :=
  [LF] ++ field ++ str "LB" ++ [CR; LF] ++ str "S" ++ status ++ [CR; ETX].
Definition flag_frame (c : ascii) (status : list ascii) : list ascii :=
  [LF] ++ repeat c 6 ++ [CR; LF] ++ str "S" ++ status ++ [CR; ETX].
Definition status_frame (status : list ascii) : list ascii :=
  [LF] ++ str "S" ++ status ++ [CR; ETX].

End Scale.


(* ===================================================================== *)
(** * test/query.c *)
(* ===================================================================== *)

Module Query.

(** [buf[i]]; the bytes of [buf] past the ones read are never looked
    at by the program, and read as NUL here. *)
Definition at_ (buf : list ascii) (i : nat) : ascii := nth i buf NUL.

Definition neqc (a b : ascii) : bool := negb (eqc a b).

(** [read_response (fd, buf, size)]: one byte at a time up to ETX or
    [size] bytes.  [fd] is the bytes the scale sends; their end is the
    [n == 0] case (ENODATA).  [Some buf] stands for the return value
    [len] with [buf[0..len)]; [None] for -1. *)
Fixpoint read_response (fd : list ascii) (size : nat)
  : option (list ascii) :=
  match size with
  | O => Some []
  | S size' =>
      match fd with
      | [] => None
      | c :: r =>
          if eqc c ETX then Some [c]
          else option_map (cons c) (read_response r size')
      end
  end.

(** [parse_status (buf, &message, &rc)]: [None] for -1. *)
Definition parse_status (buf : list ascii) : option (string * Z) :=
  if neqc (at_ buf 0) LF || neqc (at_ buf 1) "S"
     || neqc (at_ buf 4) CR || neqc (at_ buf 5) ETX
  then None
  else if eqc (at_ buf 2) "0" && eqc (at_ buf 3) "0"
  then Some ("OK"%string, 0)
  else if eqc (at_ buf 2) "1" && eqc (at_ buf 3) "0"
  then Some ("Weight not stable"%string, -1)
  else if eqc (at_ buf 2) "2" && eqc (at_ buf 3) "0"
  then Some ("Zero"%string, 0)
  else if eqc (at_ buf 2) "0" && eqc (at_ buf 3) "1"
  then Some ("Under capacity"%string, -1)
  else if eqc (at_ buf 2) "0" && eqc (at_ buf 3) "2"
  then Some ("Over capacity"%string, -1)
  else if eqc (at_ buf 2) "1" && eqc (at_ buf 3) "1"
  then Some ("Under capacity"%string, -1)
  else None.

(** [parse_value (buf, &weight)]: [None] for -1.  [endptr - buf] is one
    more than what [strtod] consumed from [&buf[1]]. *)
Definition parse_value (buf : list ascii) : option Q :=
  if neqc (at_ buf 0) LF || neqc (at_ buf 7) "L"
     || neqc (at_ buf 8) "B" || neqc (at_ buf 9) CR
  then None
  else
    let (weight, consumed) := Num.strtod (skipn 1 buf) in
    if negb (Nat.eqb (1 + consumed) 7) then None
    else Some weight.

(** How [main] ends, once the port is open and the query written
    (the failures of [open], [write] and [close] are left out). *)
Inductive exit :=
| ReadError                           (* perror ("read response") *)
| UnexpectedResponse (len : nat)
| StatusParseError                    (* Error parsing status response *)
| ScaleError (message : string)       (* Scale error: %s *)
| ValueNotReturned
| ValueParseError                     (* Error parsing value response *)
| Printed (weight : Q).               (* the weight is printed; return 0 *)

Definition sizeof_buf : nat := 64.

(** Lines 153 to 160 of [main]: where the status portion starts, by the
    length of the response; [None] for an unexpected length. *)
Definition status_portion (buf : list ascii) : option (list ascii) :=
  let len := length buf in
  if Nat.eqb len 6 then Some buf
  else if Nat.eqb len 16 then Some (skipn 10 buf)
  else None.

Definition main (fd : list ascii) : exit :=
  match read_response fd sizeof_buf with
  | None => ReadError
  | Some buf =>
      let len := length buf in
      match status_portion buf with
      | None => UnexpectedResponse len
      | Some status =>
          match parse_status status with
          | None => StatusParseError
          | Some (errmsg, rc) =>
              if rc <? 0 then ScaleError errmsg
              else if negb (Nat.eqb len 16) then ValueNotReturned
              else
                match parse_value buf with
                | None => ValueParseError
                | Some weight => Printed weight
                end
          end
      end
  end.

End Query.

(* ===================================================================== *)
(** * pot.c *)
(* ===================================================================== *)

Module Pot.
Import Scale.

Record pot_t := mkPot {
  name      : string;
  scaledev  : string;
  scale     : FILE;
  full_lbs  : Q;
  empty_lbs : Q;
  pct       : Z;
  pct_err   : Z
}.

Definition INT_MIN : Z := - 2 ^ 31.
Definition INT_MAX : Z := 2 ^ 31 - 1.

(** Conversion of a float to [int] (C11 6.3.1.4): the fractional part
    is discarded; undefined when the integral part is not an [int]. *)
Definition Qtrunc (q : Q) : Z := Z.quot (Qnum q) (Z.pos (Qden q)).

Definition float_to_int (q : Q) : option Z :=
  let z := Qtrunc q in
  if (INT_MIN <=? z) && (z <=? INT_MAX) then Some z else None.

(** What [msg] is called with. *)
Inductive message :=
| MsgOff                  (* msg ("off") *)
| MsgOn (pct : Z).        (* msg ("on (%d%% full)", pct) *)

Definition set_pct (pot : pot_t) (p : Z) : pot_t :=
  mkPot (name pot) (scaledev pot) (scale pot) (full_lbs pot)
        (empty_lbs pot) p (pct_err pot).

(** [void pot_update (pot_t *pot, int pct)] *)
Definition pot_update (pot : pot_t) (p : Z) : option message * pot_t :=
  let m :=
    if (p <? 0) && (pct pot >=? 0) then Some MsgOff
    else if (p >=? 0) && (pct pot <=? 0) then Some (MsgOn p)
    else None in
  (m, set_pct pot p).

(** Lines 125 and 126 of [pot_checker]:
    [pct = 100 * (lbs - pot->empty_lbs) / (pot->full_lbs - pot->empty_lbs)].
    With [full_lbs = empty_lbs] the quotient is an infinity or a NaN,
    whose conversion to [int] is undefined. *)
Definition checker_pct (pot : pot_t) (lbs : Q) : option Z :=
  if Qeq_bool (full_lbs pot - empty_lbs pot) 0 then None
  else float_to_int
         (inject_Z 100 * (lbs - empty_lbs pot)
            / (full_lbs pot - empty_lbs pot))%Q.

(** What [pot_checker] logs. *)
Inductive entry :=
| Msg (m : message)
| Err (what : string) (errno : Z).     (* err ("scale_read") *)

(** The loop of [pot_checker], [n] readings long at most.  [fuel] bounds
    each [scale_read]; [lbs] is the local the weight is read into.
    Returns the log and the pot, or [None] when a [scale_read] does not
    return within [fuel] or a conversion is undefined. *)
Fixpoint pot_checker (n fuel : nat) (dev : device) (errno0 : Z) (lbs : Q)
         (pot : pot_t) : option (list entry * pot_t) :=
  match n with
  | O => Some ([], pot)
  | S n' =>
      match scale_read fuel dev (mkState (scale pot) errno0 lbs 0) with
      | None => None
      | Some (r, st) =>
          let pot1 := mkPot (name pot) (scaledev pot) (fp st)
                            (full_lbs pot) (empty_lbs pot) (pct pot)
                            (pct_err pot) in
          if r <? 0 then Some ([Err "scale_read" (errno st)], pot1)
          else
            match checker_pct pot1 (wp st) with
            | None => None
            | Some p =>
                let (m, pot2) := pot_update pot1 p in
                match pot_checker n' fuel dev (errno st) (wp st) pot2 with
                | None => None
                | Some (log, pot3) =>
                    Some (match m with
                          | Some x => Msg x :: log
                          | None => log
                          end, pot3)
                end
            end
      end
  end.

(** ** Configuration *)

(** Modelled from the spec: [msg_exit] and [err_exit] (log.h) and
    [xzmalloc] (util.h) are not among the sources.  Configuration loading
    "fails fast with a configuration error": a call of [msg_exit] or
    [err_exit] reports its message and ends the process, so [pot_init]
    ends there.  [xzmalloc] returns zeroed memory.  [init] is how
    [pot_init] ends. *)
Inductive init :=
| MsgExit (what : string)
| ErrExit (what : string)
| Undefined                 (* a float that does not fit an int *)
| Ready (pot : pot_t).

(** The error monad of the [*_exit] calls. *)
Definition bind {A} (x : init + A) (k : A -> init) : init :=
  match x with
  | inl e => e
  | inr a => k a
  end.

Notation "'let*' x ':=' e 'in' k" := (bind e (fun x => k))
  (at level 10, x name, e at level 100, k at level 200).

(** [get_conf_str (conf, name)] *)
Definition get_conf_str (conf : gmap string string) (key : string)
  : init + string :=
  match conf !! key with
  | None => inl (MsgExit (key +:+ " undefined"))
  | Some s => inr s
  end.

(** [get_conf_num (conf, name)] *)
Definition get_conf_num (conf : gmap string string) (key : string)
  : init + Q :=
  match conf !! key with
  | None => inl (MsgExit (key +:+ " undefined"))
  | Some s => inr (Num.strtof (str s))
  end.

Definition to_int (q : Q) : init + Z :=
  match float_to_int q with
  | None => inl Undefined
  | Some z => inr z
  end.

(** [pot_t *pot_init (const char *filename)].  [load] is what
    [zhash_load] makes of the file ([None] when it fails) and
    [scale_init] opens the serial port as in [scale.c] ([None] for
    NULL).  [xzmalloc] zeroes the structure, so [pct] starts at 0. *)
Definition pot_init (load : option (gmap string string))
           (scale_init : string -> option FILE) : init :=
  match load with
  | None => ErrExit "error loading"
  | Some conf =>
      let* name := get_conf_str conf "name" in
      let* scaledev := get_conf_str conf "scale_device" in
      let* full_lbs := get_conf_num conf "full_lbs" in
      let* empty_lbs := get_conf_num conf "empty_lbs" in
      let* pct_err_f := get_conf_num conf "pct_err" in
      let* pct_err := to_int pct_err_f in
      match scale_init scaledev with
      | None => ErrExit scaledev
      | Some f => Ready (mkPot name scaledev f full_lbs empty_lbs 0 pct_err)
      end
  end.

End Pot.

(* ===================================================================== *)
(** * Opening the serial port: [scale_init] and [scale_open] *)
(* ===================================================================== *)

Module Port.

(** <termios.h> of Linux. *)
Definition CSIZE  : Z := 48.     (* 0000060 *)
Definition CS7    : Z := 32.     (* 0000040 *)
Definition CSTOPB : Z := 64.     (* 0000100 *)
Definition PARENB : Z := 256.    (* 0000400 *)
Definition PARODD : Z := 512.    (* 0001000 *)
Definition B9600  : Z := 13.     (* 0000015 *)

(** The fields of [struct termios] the sources touch; [c_cflag] is a
    32-bit [tcflag_t]. *)
Record termios := mkTermios {
  c_cflag : Z;
  c_speed : Z
}.

(** Lines 82 to 87 of scale.c and 34 to 39 of query.c, the same in both:
    [cfsetspeed (&tio, B9600)], then
    [c_cflag &= ~CSIZE; c_cflag |= CS7; c_cflag &= ~CSTOPB;
     c_cflag |= PARENB; c_cflag &= ~PARODD]. *)
Definition configure (tio : termios) : termios :=
  let f0 := c_cflag tio in
  let f1 := Z.land f0 (Z.lnot CSIZE) in     (* 7 bits *)
  let f2 := Z.lor f1 CS7 in
  let f3 := Z.land f2 (Z.lnot CSTOPB) in    (* 1 stop bit *)
  let f4 := Z.lor f3 PARENB in              (* enable parity *)
  let f5 := Z.land f4 (Z.lnot PARODD) in    (* use even parity *)
  mkTermios f5 B9600.

(** What a system call answers: its value, or the [errno] of its
    failure. *)
Inductive answer (A : Type) :=
| Ok (a : A)
| Fail (e : Z).
Arguments Ok {A} a.
Arguments Fail {A} e.

(** The answers the system gives to the calls of one [scale_init] or
    [scale_open]; each call is made once at most.  A descriptor is a
    natural number. *)
Record system := mkSystem {
  sys_open      : answer nat;
  sys_flock     : answer unit;
  sys_tcgetattr : answer termios;
  sys_tcsetattr : answer unit;
  sys_tcflush   : answer unit;
  sys_fdopen    : answer unit;
  sys_close     : answer unit
}.

(** What the calls change: [errno], the descriptors that are open, the
    settings [tcsetattr] has applied to the line, whether the
    line was flushed, and whether the lock is held. *)
Record world := mkWorld {
  w_errno   : Z;
  w_open    : list nat;
  w_line    : option termios;
  w_flushed : bool;
  w_locked  : bool
}.

Definition with_errno (e : Z) (w : world) : world :=
  mkWorld e (w_open w) (w_line w) (w_flushed w) (w_locked w).

Definition opened (fd : nat) (w : world) : world :=
  mkWorld (w_errno w) (fd :: w_open w) (w_line w) (w_flushed w) (w_locked w).

Fixpoint remove_fd (fd : nat) (l : list nat) : list nat :=
  match l with
  | [] => []
  | x :: r => if Nat.eqb x fd then r else x :: remove_fd fd r
  end.

(** [close (fd)]: the descriptor is gone whether [close] fails or not;
    a failure sets [errno]. *)
Definition close (sys : system) (fd : nat) (w : world) : world :=
  let w' := mkWorld (w_errno w) (remove_fd fd (w_open w)) (w_line w)
                    (w_flushed w) false in
  match sys_close sys with
  | Ok _ => w'
  | Fail e => with_errno e w'
  end.

Definition applied (tio : termios) (w : world) : world :=
  mkWorld (w_errno w) (w_open w) (Some tio) (w_flushed w) (w_locked w).

Definition flushed (w : world) : world :=
  mkWorld (w_errno w) (w_open w) (w_line w) true (w_locked w).

Definition locked (w : world) : world :=
  mkWorld (w_errno w) (w_open w) (w_line w) (w_flushed w) true.

(** [int scale_open (const char *path)] of query.c: the descriptor, or
    [None] for -1. *)
Definition scale_open (sys : system) (w : world) : option nat * world :=
  match sys_open sys with
  | Fail e => (None, with_errno e w)                       (* return -1 *)
  | Ok fd =>
      let w1 := opened fd w in
      (* error_close: *)
      let error_close (w : world) : option nat * world :=
        let saved_errno := w_errno w in
        (None, with_errno saved_errno (close sys fd w)) in
      match sys_tcgetattr sys with
      | Fail e => error_close (with_errno e w1)
      | Ok tio =>
          match sys_tcsetattr sys with
          | Fail e => error_close (with_errno e w1)
          | Ok _ =>
              let w2 := applied (configure tio) w1 in
              match sys_tcflush sys with
              | Fail e => error_close (with_errno e w2)
              | Ok _ => (Some fd, flushed w2)
              end
          end
      end
  end.

(** [FILE *scale_init (char *devname)] of scale.c: the descriptor of the
    stream, or [None] for NULL. *)
Definition scale_init (sys : system) (w : world) : option nat * world :=
  match sys_open sys with
  | Fail e => (None, with_errno e w)          (* error: fd < 0, no close *)
  | Ok fd =>
      let w1 := opened fd w in
      (* error: *)
      let error (w : world) : option nat * world := (None, close sys fd w) in
      match sys_flock sys with
      | Fail e => error (with_errno e w1)
      | Ok _ =>
          let w2 := locked w1 in
          match sys_tcgetattr sys with
          | Fail e => error (with_errno e w2)
          | Ok tio =>
              match sys_tcsetattr sys with
              | Fail e => error (with_errno e w2)
              | Ok _ =>
                  let w3 := applied (configure tio) w2 in
                  (* return fdopen (fd, "r+"); *)
                  match sys_fdopen sys with
                  | Fail e => (None, with_errno e w3)
                  | Ok _ => (Some fd, w3)
                  end
              end
          end
      end
  end.

End Port.

(* ===================================================================== *)
(** * What the specification says, for comparison *)
(* ===================================================================== *)

Module Spec.
Import Pot.

(** Rounding to the nearest integer, halves away from zero. *)
Definition round (q : Q) : Z :=
  if Qle_bool 0 q then Qfloor (q + (1 # 2))%Q
  else Qceiling (q - (1 # 2))%Q.


(** The percentage bucket: the percentage rounded to the tolerance. *)
Definition bucket (tolerance p : Z) : Z :=
  if tolerance =? 0 then p
  else tolerance * round (inject_Z p / inject_Z tolerance)%Q.

(** The events of the monitor. *)
Inductive event :=
| TurnedOn (pct : Z)
| TurnedOff
| Updated (pct : Z).

(** The update rule of the monitor, as section 4.3 words it. *)
Definition update (tolerance previous p : Z) : option event :=
  if (previous <=? 0) && (0 <? p) then Some (TurnedOn p)
  else if (0 <=? previous) && (p <? 0) then Some TurnedOff
  else if negb (bucket tolerance p =? bucket tolerance previous)
       then Some (Updated p)
       else None.

(** How a message of [pot_update] reads as an event. *)
Definition event_of (m : option message) : option event :=
  match m with
  | Some MsgOff => Some TurnedOff
  | Some (MsgOn p) => Some (TurnedOn p)
  | None => None
  end.

End Spec.

(* ===================================================================== *)
(** * The pot monitor *)
(* ===================================================================== *)

Module PotFacts.
Import Scale Pot.


Definition with_pct_err (pot : pot_t) (e : Z) : pot_t :=
  mkPot (name pot) (scaledev pot) (scale pot) (full_lbs pot)
        (empty_lbs pot) (pct pot) e.

(** A pot on an idle line, for examples. *)
Definition a_pot (full empty : Q) (p tolerance : Z) : pot_t :=
  mkPot "pot" "/dev/ttyUSB0" (mkFILE [] []) full empty p tolerance.

(** ** Conversion to [int] *)








(** ** [pot_update] *)

Lemma pot_update_pct pot p : pct (snd (pot_update pot p)) = p.
Proof. reflexivity. Qed.

Lemma pot_update_message pot p :
  fst (pot_update pot p) =
    if (p <? 0) && (0 <=? pct pot) then Some MsgOff
    else if (0 <=? p) && (pct pot <=? 0) then Some (MsgOn p)
    else None.
Proof.
  unfold pot_update; simpl.
  rewrite !Z.geb_leb. reflexivity.
Qed.

End PotFacts.

Module Monitor.
Import Scale Pot PotFacts.

(** Two readings of 0.75 lb on a pot that is empty at 0 lb and full at
    4 lb, then a silent line: "on (18% full)" is logged once, then the
    error of [scale_read]. *)
Example pot_checker_run :
  option_map fst
    (pot_checker 3 4
       (fun n => match n with
                 | 0%nat | 1%nat => Reply (value_frame (str "00.750") (str "00"))
                 | _ => Reply []
                 end)
       0 0%Q (a_pot 4 0 0 5))
  = Some [Msg (MsgOn 18); Err "scale_read" EPROTO].
Proof. vm_compute. reflexivity. Qed.

(** C4, as stated, fails: with the previous and the new percentage both
    0, [pot_update] logs "on (0% full)". *)
Lemma pot_update_zero_to_zero_logs_on :
  fst (pot_update (a_pot 10 0 0 5) 0) = Some (MsgOn 0)
  /\ Spec.event_of (fst (pot_update (a_pot 10 0 0 5) 0))
     = Some (Spec.TurnedOn 0)
  /\ Spec.update 5 0 0 = None.
Proof. repeat split; reflexivity. Qed.

(** C4, amended: [pot_update] logs "on" with the new percentage exactly
    when the previous percentage is <= 0 and the new one is >= 0, logs
    "off" exactly when the previous one is >= 0 and the new one is < 0,
    and stores the new percentage in every case. *)
Theorem pot_update_edges (pot : pot_t) (p : Z) :
  (forall q, fst (pot_update pot p) = Some (MsgOn q)
             <-> q = p /\ pct pot <= 0 /\ 0 <= p)
  /\ (fst (pot_update pot p) = Some MsgOff <-> 0 <= pct pot /\ p < 0)
  /\ pct (snd (pot_update pot p)) = p.
Proof.
  rewrite pot_update_message.
  repeat split; intros;
    destruct (Z.ltb_spec p 0), (Z.leb_spec 0 (pct pot)),
             (Z.leb_spec 0 p), (Z.leb_spec (pct pot) 0);
    simpl in *; try congruence; try lia;
    repeat match goal with
           | H : _ /\ _ |- _ => destruct H
           end; subst; try lia; try reflexivity.
Qed.

(** C5, as stated, fails: from 20% to 60% with a tolerance of 5 the
    bucket changes, and [pot_update] logs nothing. *)
Lemma pot_update_never_logs_a_change :
  fst (pot_update (a_pot 10 0 20 5) 60) = None
  /\ Spec.event_of (fst (pot_update (a_pot 10 0 20 5) 60)) = None
  /\ Spec.bucket 5 60 <> Spec.bucket 5 20
  /\ Spec.update 5 20 60 = Some (Spec.Updated 60).
Proof. repeat split; vm_compute; congruence. Qed.

(** C5, amended: when neither "off" nor "on" is logged [pot_update]
    logs nothing at all, and what it logs never depends on [pct_err]. *)
Theorem pot_update_no_edge_no_message (pot : pot_t) (p : Z) :
  ~ (p < 0 /\ 0 <= pct pot) ->
  ~ (0 <= p /\ pct pot <= 0) ->
  fst (pot_update pot p) = None
  /\ forall e, fst (pot_update (with_pct_err pot e) p)
               = fst (pot_update pot p).
Proof.
  intros Hoff Hon. split; [|reflexivity].
  rewrite pot_update_message.
  destruct (Z.ltb_spec p 0), (Z.leb_spec 0 (pct pot)),
           (Z.leb_spec 0 p), (Z.leb_spec (pct pot) 0);
    simpl; try reflexivity; exfalso; lia.
Qed.

Lemma pot_update_no_edge_no_message_witness :
  fst (pot_update (a_pot 10 0 20 5) 60) = None
  /\ forall e, fst (pot_update (with_pct_err (a_pot 10 0 20 5) e) 60)
               = fst (pot_update (a_pot 10 0 20 5) 60).
Proof.
  apply (pot_update_no_edge_no_message (a_pot 10 0 20 5) 60);
    simpl; lia.
Defined.




End Monitor.

(* ===================================================================== *)
(** * Configuration *)
(* ===================================================================== *)

Module Config.
Import Scale Pot.

(** The keys [pot_init] looks up, in the order it looks them up. *)
Definition required : list string :=
  ["name"; "scale_device"; "full_lbs"; "empty_lbs"; "pct_err"]%string.

(** A serial port that opens, with nothing on the line. *)
Definition opens (devname : string) : option FILE := Some (mkFILE [] []).

(** A configuration whose [full_lbs] is below its [empty_lbs]. *)
Definition upside_down : gmap string string :=
  {[ "name" := "pot"; "scale_device" := "/dev/ttyUSB0";
     "full_lbs" := "1.0"; "empty_lbs" := "2.5"; "pct_err" := "5" ]}%string.

Lemma get_conf_str_some conf key s :
  conf !! key = Some s -> get_conf_str conf key = inr s.
Proof. intros H; unfold get_conf_str; now rewrite H. Qed.

Lemma get_conf_num_some conf key s :
  conf !! key = Some s -> get_conf_num conf key = inr (Num.strtof (str s)).
Proof. intros H; unfold get_conf_num; now rewrite H. Qed.

(** C9, as stated, fails: with [full_lbs] 1.0 and [empty_lbs] 2.5
    [pot_init] returns a pot. *)
Lemma pot_init_accepts_full_below_empty :
  exists pot, pot_init (Some upside_down) opens = Ready pot
              /\ (full_lbs pot <= empty_lbs pot)%Q.
Proof.
  eexists; split; [vm_compute; reflexivity|].
  simpl. discriminate.
Qed.

(** C9, amended: [pot_init] leaves through [msg_exit] when one of name,
    scale_device, full_lbs, empty_lbs, pct_err is absent; with all five
    present it compares [full_lbs] with [empty_lbs] nowhere: the pot is
    returned as soon as [pct_err] converts and the scale opens. *)
Theorem pot_init_required_fields
        (conf : gmap string string) (scale_init : string -> option FILE) :
  (forall key, In key required -> conf !! key = None ->
     exists k, In k required
               /\ pot_init (Some conf) scale_init
                  = MsgExit (k +:+ " undefined"))
  /\ (forall n d f e p file z,
        conf !! "name"%string = Some n ->
        conf !! "scale_device"%string = Some d ->
        conf !! "full_lbs"%string = Some f ->
        conf !! "empty_lbs"%string = Some e ->
        conf !! "pct_err"%string = Some p ->
        float_to_int (Num.strtof (str p)) = Some z ->
        scale_init d = Some file ->
        pot_init (Some conf) scale_init
        = Ready (mkPot n d file (Num.strtof (str f)) (Num.strtof (str e))
                       0 z)).
Proof.
  split.
  - intros key Hin Hnone. unfold pot_init, get_conf_str, get_conf_num.
    destruct (conf !! "name"%string) eqn:E1;
      [|exists "name"%string; split; [simpl; tauto | reflexivity]].
    destruct (conf !! "scale_device"%string) eqn:E2;
      [|exists "scale_device"%string; split; [simpl; tauto | reflexivity]].
    destruct (conf !! "full_lbs"%string) eqn:E3;
      [|exists "full_lbs"%string; split; [simpl; tauto | reflexivity]].
    destruct (conf !! "empty_lbs"%string) eqn:E4;
      [|exists "empty_lbs"%string; split; [simpl; tauto | reflexivity]].
    destruct (conf !! "pct_err"%string) eqn:E5;
      [|exists "pct_err"%string; split; [simpl; tauto | reflexivity]].
    exfalso. simpl in Hin.
    destruct Hin as [<- | [<- | [<- | [<- | [<- | []]]]]]; congruence.
  - intros n d f e p file z Hn Hd Hf He Hp Hz Hfile.
    unfold pot_init.
    rewrite (get_conf_str_some _ _ _ Hn), (get_conf_str_some _ _ _ Hd),
      (get_conf_num_some _ _ _ Hf), (get_conf_num_some _ _ _ He),
      (get_conf_num_some _ _ _ Hp).
    unfold to_int, bind. now rewrite Hz, Hfile.
Qed.

Lemma pot_init_required_fields_witness :
  (exists k, In k required
             /\ pot_init (Some (delete "pct_err"%string upside_down)) opens
                = MsgExit (k +:+ " undefined"))
  /\ pot_init (Some upside_down) opens
     = Ready (mkPot "pot" "/dev/ttyUSB0" (mkFILE [] [])
                    (Num.strtof (str "1.0")) (Num.strtof (str "2.5")) 0 5).
Proof.
  split.
  - apply (proj1 (pot_init_required_fields
                    (delete "pct_err"%string upside_down) opens)
                 "pct_err"%string).
    + simpl; tauto.
    + vm_compute; reflexivity.
  - apply (proj2 (pot_init_required_fields upside_down opens)
                 "pot"%string "/dev/ttyUSB0"%string "1.0"%string
                 "2.5"%string "5"%string);
      vm_compute; reflexivity.
Defined.

End Config.

(* ===================================================================== *)
(** * Frames and the numbers in them *)
(* ===================================================================== *)

Module Frame.

(** A run of decimal digits. *)
Definition digits (ds : list ascii) : Prop := Forall (fun c => isdigit c = true) ds.

(** The number a run of digits denotes, continuing from [acc]. *)
Definition digits_val (acc : Z) (ds : list ascii) : Z :=
  fold_left (fun a c => 10 * a + digit_val c) ds acc.

(** The number the field [ds.fs] denotes: the digits of [ds] and [fs]
    read as one integer, divided by ten for each digit of [fs]. *)
Definition decimal (ds fs : list ascii) : Q :=
  (inject_Z (digits_val 0 (ds ++ fs))
   / inject_Z (10 ^ Z.of_nat (length fs)))%Q.

(** The weight field [ds.fs] of a value frame. *)
Definition field (ds fs : list ascii) : list ascii := ds ++ str "." ++ fs.

Lemma eqc_eq a b : eqc a b = true <-> a = b.
Proof.
  unfold eqc, code. rewrite Z.eqb_eq. split; [|now intros ->].
  intros H. apply Nat2Z.inj in H.
  rewrite <- (ascii_nat_embedding a), <- (ascii_nat_embedding b).
  now rewrite H.
Qed.

Lemma isdigit_cases c :
  isdigit c = true -> In c (str "0123456789").
Proof.
  destruct c as [[] [] [] [] [] [] [] []]; intros H; vm_compute in H;
    try discriminate H; clear H;
    cbv [In str list_ascii_of_string];
    repeat (first [left; reflexivity | right]).
Qed.

Ltac by_digit_cases H :=
  apply isdigit_cases in H; cbv [In str list_ascii_of_string] in H;
  repeat (destruct H as [H | H]; [subst; reflexivity |]); destruct H.

Lemma digit_not_space c : isdigit c = true -> isspace c = false.
Proof. intros H; by_digit_cases H. Qed.

Lemma digit_not_sign c : isdigit c = true -> is_sign c = false.
Proof. intros H; by_digit_cases H. Qed.

Lemma digit_not_ETX c : isdigit c = true -> eqc c ETX = false.
Proof. intros H; by_digit_cases H. Qed.

(** ** The automaton on a run of digits *)

Lemma frun_int ds : forall a s,
  digits ds ->
  Num.frun Num.FInt a (ds ++ s)
  = Num.frun Num.FInt (fold_left Num.push_int ds a) s.
Proof.
  induction ds as [|d ds IH]; intros a s Hds; [reflexivity|].
  inversion Hds as [|? ? Hd Hds']; subst.
  simpl. rewrite Hd. now apply IH.
Qed.

Lemma frun_frac fs : forall a s,
  digits fs ->
  Num.frun Num.FFrac a (fs ++ s)
  = Num.frun Num.FFrac (fold_left Num.push_frac fs a) s.
Proof.
  induction fs as [|d fs IH]; intros a s Hfs; [reflexivity|].
  inversion Hfs as [|? ? Hd Hfs']; subst.
  simpl. rewrite Hd. now apply IH.
Qed.

Lemma fbest_complete st a s : forall n b1 b2,
  Num.complete st = true ->
  Num.fbest st a s n b1 = Num.fbest st a s n b2.
Proof.
  intros n b1 b2 H. destruct s; simpl; rewrite H; reflexivity.
Qed.

Lemma fbest_int ds : forall a s n b,
  digits ds ->
  Num.fbest Num.FInt a (ds ++ s) n b
  = Num.fbest Num.FInt (fold_left Num.push_int ds a) s (n + length ds) b.
Proof.
  induction ds as [|d ds IH]; intros a s n b Hds.
  - simpl. now rewrite Nat.add_0_r.
  - inversion Hds as [|? ? Hd Hds']; subst.
    simpl. rewrite Hd. rewrite IH by assumption.
    rewrite Nat.add_succ_r. simpl.
    now apply fbest_complete.
Qed.

Lemma fbest_frac fs : forall a s n b,
  digits fs ->
  Num.fbest Num.FFrac a (fs ++ s) n b
  = Num.fbest Num.FFrac (fold_left Num.push_frac fs a) s (n + length fs) b.
Proof.
  induction fs as [|d fs IH]; intros a s n b Hfs.
  - simpl. now rewrite Nat.add_0_r.
  - inversion Hfs as [|? ? Hd Hfs']; subst.
    simpl. rewrite Hd. rewrite IH by assumption.
    rewrite Nat.add_succ_r. simpl.
    now apply fbest_complete.
Qed.

(** ** The accumulator after a run of digits *)

Lemma push_int_all ds : forall a,
  fold_left Num.push_int ds a
  = Num.mkAcc (Num.neg a) (digits_val (Num.mant a) ds) (Num.nfrac a)
              (Num.eneg a) (Num.expo a).
Proof.
  induction ds as [|d ds IH]; intros a; [now destruct a|].
  simpl. rewrite IH. reflexivity.
Qed.

Lemma push_frac_all fs : forall a,
  fold_left Num.push_frac fs a
  = Num.mkAcc (Num.neg a) (digits_val (Num.mant a) fs)
              (Num.nfrac a + Z.of_nat (length fs))
              (Num.eneg a) (Num.expo a).
Proof.
  induction fs as [|d fs IH]; intros a.
  - destruct a; simpl. now rewrite Z.add_0_r.
  - cbn [fold_left length]. rewrite IH. simpl Num.neg. simpl Num.mant.
    simpl Num.nfrac. simpl Num.eneg. simpl Num.expo.
    f_equal. lia.
Qed.

Lemma digits_val_app ds fs acc :
  digits_val acc (ds ++ fs) = digits_val (digits_val acc ds) fs.
Proof. unfold digits_val. apply fold_left_app. Qed.

(** The accumulator after the field [(d :: ds).fs]. *)
Definition field_acc (d : ascii) (ds fs : list ascii) : Num.facc :=
  fold_left Num.push_frac fs
            (fold_left Num.push_int ds (Num.push_int Num.acc0 d)).

Lemma field_acc_value d ds fs :
  (Num.fvalue (field_acc d ds fs) == decimal (d :: ds) fs)%Q.
Proof.
  unfold field_acc, Num.fvalue.
  rewrite push_frac_all, push_int_all. simpl Num.neg. simpl Num.mant.
  simpl Num.nfrac. simpl Num.eneg. simpl Num.expo.
  rewrite Qred_correct. unfold decimal.
  rewrite digits_val_app.
  replace (digits_val 0 (d :: ds)) with (digits_val (10 * 0 + digit_val d) ds)
    by reflexivity.
  replace (0 - (0 + Z.of_nat (length fs))) with (- Z.of_nat (length fs)) by lia.
  rewrite Qpower_opp.
  rewrite <- Zpower_Qpower by lia.
  reflexivity.
Qed.

(** ** [%f] and [strtod] on a weight field *)

Lemma frun_field d ds fs rest :
  isdigit d = true -> digits ds -> digits fs ->
  Num.frun Num.FStart Num.acc0 (field (d :: ds) fs ++ "L"%char :: rest)
  = (Num.FFrac, field_acc d ds fs, "L"%char :: rest).
Proof.
  intros Hd Hds Hfs. unfold field.
  cbn [app Num.frun Num.fstep].
  rewrite (digit_not_sign d Hd), Hd.
  rewrite <- List.app_assoc. rewrite frun_int by assumption.
  cbn [app str list_ascii_of_string Num.frun Num.fstep].
  replace (isdigit ".") with false by reflexivity.
  replace (is_point ".") with true by reflexivity.
  rewrite frun_frac by assumption.
  reflexivity.
Qed.

Lemma conv_float_field d ds fs rest :
  isdigit d = true -> digits ds -> digits fs ->
  Scanf.conv_float (field (d :: ds) fs ++ "L"%char :: rest)
  = Scanf.Matched (Some (Scanf.AFloat (Num.fvalue (field_acc d ds fs))))
                  ("L"%char :: rest).
Proof.
  intros Hd Hds Hfs. unfold Scanf.conv_float.
  pose proof (frun_field d ds fs rest Hd Hds Hfs) as Hrun.
  unfold field in *. cbn [app] in *.
  cbn [Num.skip_space]. rewrite (digit_not_space d Hd).
  rewrite Hrun. reflexivity.
Qed.

Lemma strtod_field d ds fs rest :
  isdigit d = true -> digits ds -> digits fs ->
  Num.strtod (field (d :: ds) fs ++ "L"%char :: rest)
  = (Num.fvalue (field_acc d ds fs), length (field (d :: ds) fs)).
Proof.
  intros Hd Hds Hfs. unfold Num.strtod.
  assert (Hskip : Num.skip_space (field (d :: ds) fs ++ "L"%char :: rest)
                  = field (d :: ds) fs ++ "L"%char :: rest).
  { unfold field. cbn [app Num.skip_space].
    now rewrite (digit_not_space d Hd). }
  rewrite Hskip. rewrite Nat.sub_diag.
  unfold field.
  cbn [app Num.fbest Num.fstep Num.complete].
  rewrite (digit_not_sign d Hd), Hd.
  rewrite <- List.app_assoc. rewrite fbest_int by assumption.
  cbn [app str list_ascii_of_string Num.fbest Num.fstep Num.complete].
  replace (isdigit ".") with false by reflexivity.
  replace (is_point ".") with true by reflexivity.
  rewrite fbest_frac by assumption.
  cbn [Num.fbest Num.fstep Num.complete].
  replace (isdigit "L") with false by reflexivity.
  replace (is_exp "L") with false by reflexivity.
  fold (field_acc d ds fs).
  cbn [Nat.add length]. f_equal.
  rewrite List.length_app. cbn [length]. lia.
Qed.

End Frame.

(* ===================================================================== *)
(** * Decoding one response *)
(* ===================================================================== *)

Module Decode.
Import Scale Frame.

(** A state with [u] unread and nothing else. *)
Definition just (u : list ascii) : state := mkState (mkFILE u []) 0 0%Q 0.

(** What [scan_response] makes of the unread bytes [u], and what it
    leaves unread. *)
Definition decode (u : list ascii) : response * list ascii :=
  let (r, st) := scan_response (just u) in (r, unread (fp st)).

(** The number two status digits denote. *)
Definition status_val (s1 s2 : ascii) : Z := 10 * digit_val s1 + digit_val s2.

(** The state after a query has been written and the stream read down
    to [u]. *)
Definition sent (u : list ascii) (st : state) : state :=
  mkState (mkFILE u (written (fp st) ++ [query]))
          (errno st) (wp st) (stores st).

(** [scan_response] looks at the unread bytes only and changes nothing
    else. *)
Lemma scan_response_decode st :
  scan_response st
  = (fst (decode (unread (fp st))),
     set_unread (snd (decode (unread (fp st)))) st).
Proof.
  destruct st as [[u w] e p n].
  unfold decode, scan_response, fscanf, just, set_unread. cbn [fp unread].
  destruct (Scanf.scanf fmt_value u) as [[n1 a1] u1]. cbn [fp unread].
  destruct (n1 =? 2); [reflexivity|].
  destruct (Scanf.scanf fmt_over u1) as [[n2 a2] u2]. cbn [fp unread].
  destruct (n2 =? 1); [reflexivity|].
  destruct (Scanf.scanf fmt_under u2) as [[n3 a3] u3]. cbn [fp unread].
  destruct (n3 =? 1); [reflexivity|].
  destruct (Scanf.scanf fmt_zero u3) as [[n4 a4] u4]. cbn [fp unread].
  destruct (n4 =? 1); [reflexivity|].
  destruct (Scanf.scanf fmt_status u4) as [[n5 a5] u5]. cbn [fp unread].
  destruct (n5 =? 1); reflexivity.
Qed.

(** One turn of the loop of [scale_read], by what the reply decodes to. *)
Lemma scale_read_step fuel dev st bytes :
  dev (length (written (fp st))) = Reply bytes ->
  scale_read (S fuel) dev st
  = match decode (unread (fp st) ++ bytes) with
    | (Value weight _, u) => Some (0, store_wp weight (sent u st))
    | (OverCapacity _, u) => Some (-1, set_errno ERANGE (sent u st))
    | (UnderCapacity _, u) => Some (-1, set_errno ERANGE (sent u st))
    | (ZeroingError _, u) => Some (-1, set_errno EDOM (sent u st))
    | (StatusOnly _, u) => scale_read fuel dev (sent u st)
    | (Unknown, u) => Some (-1, set_errno EPROTO (sent u st))
    end.
Proof.
  intros Hdev. cbn [scale_read]. unfold fputs. rewrite Hdev.
  cbn [Z.ltb Z.compare]. rewrite scan_response_decode. cbn [fp unread].
  destruct (decode (unread (fp st) ++ bytes)) as [[] u]; reflexivity.
Qed.

Lemma scale_read_write_error fuel dev st e :
  dev (length (written (fp st))) = WriteError e ->
  scale_read (S fuel) dev st = Some (-1, set_errno e st).
Proof.
  intros Hdev. cbn [scale_read]. unfold fputs. rewrite Hdev. reflexivity.
Qed.

(** ** The frames *)

Ltac digit_cases H :=
  apply isdigit_cases in H; cbv [In str list_ascii_of_string] in H;
  repeat (destruct H as [H | H]; [subst |]); [.. | destruct H].

Lemma decode_status_frame s1 s2 :
  isdigit s1 = true -> isdigit s2 = true ->
  decode (status_frame [s1; s2]) = (StatusOnly (status_val s1 s2), []).
Proof.
  intros H1 H2. digit_cases H1; digit_cases H2; vm_compute; reflexivity.
Qed.

Lemma decode_over_frame s1 s2 :
  isdigit s1 = true -> isdigit s2 = true ->
  decode (flag_frame "^" [s1; s2]) = (OverCapacity (status_val s1 s2), []).
Proof.
  intros H1 H2. digit_cases H1; digit_cases H2; vm_compute; reflexivity.
Qed.

Lemma decode_under_frame s1 s2 :
  isdigit s1 = true -> isdigit s2 = true ->
  decode (flag_frame "_" [s1; s2]) = (UnderCapacity (status_val s1 s2), []).
Proof.
  intros H1 H2. digit_cases H1; digit_cases H2; vm_compute; reflexivity.
Qed.

(** The six dashes of a zeroing error: [%f] of the first call takes the
    first dash for a sign, so the fourth call finds five, and the fifth
    call reads the status that is left. *)
Lemma decode_zero_frame s1 s2 :
  isdigit s1 = true -> isdigit s2 = true ->
  decode (flag_frame "-" [s1; s2]) = (StatusOnly (status_val s1 s2), []).
Proof.
  intros H1 H2. digit_cases H1; digit_cases H2; vm_compute; reflexivity.
Qed.

(** With one dash more the fourth call matches. *)
Lemma decode_seven_dashes :
  decode ([LF] ++ str "-------" ++ [CR; LF] ++ str "S00" ++ [CR; ETX])
  = (ZeroingError 0, []).
Proof. vm_compute; reflexivity. Qed.

Lemma parse_fmt_value :
  Scanf.parse_format fmt_value
  = [Scanf.DSpace; Scanf.DFloat; Scanf.DLit "L"; Scanf.DLit "B";
     Scanf.DSpace; Scanf.DSpace; Scanf.DLit "S"; Scanf.DInt;
     Scanf.DSpace; Scanf.DLit ETX].
Proof. vm_compute; reflexivity. Qed.

(** The directives of [fmt_value] after [%f], on what follows the
    weight field. *)
Lemma run_after_weight v s1 s2 :
  isdigit s1 = true -> isdigit s2 = true ->
  Scanf.run [Scanf.DLit "L"; Scanf.DLit "B"; Scanf.DSpace; Scanf.DSpace;
             Scanf.DLit "S"; Scanf.DInt; Scanf.DSpace; Scanf.DLit ETX]
            [Scanf.AFloat v]
            ("L"%char :: "B"%char :: CR :: LF :: "S"%char
               :: s1 :: s2 :: [CR; ETX])
  = (2, [Scanf.AFloat v; Scanf.AInt (status_val s1 s2)], []).
Proof.
  intros H1 H2. digit_cases H1; digit_cases H2; vm_compute; reflexivity.
Qed.

Lemma scanf_value_frame d ds fs s1 s2 :
  isdigit d = true -> digits ds -> digits fs ->
  isdigit s1 = true -> isdigit s2 = true ->
  Scanf.scanf fmt_value (value_frame (field (d :: ds) fs) [s1; s2])
  = (2, [Scanf.AFloat (Num.fvalue (field_acc d ds fs));
         Scanf.AInt (status_val s1 s2)], []).
Proof.
  intros Hd Hds Hfs H1 H2.
  unfold Scanf.scanf. rewrite parse_fmt_value.
  pose proof (conv_float_field d ds fs
                ("B"%char :: CR :: LF :: "S"%char :: s1 :: s2 :: [CR; ETX])
                Hd Hds Hfs) as Hconv.
  unfold value_frame.
  replace ([LF] ++ field (d :: ds) fs ++ str "LB" ++ [CR; LF] ++ str "S"
             ++ [s1; s2] ++ [CR; ETX])
    with (LF :: field (d :: ds) fs
             ++ "L"%char :: "B"%char :: CR :: LF :: "S"%char
             :: s1 :: s2 :: [CR; ETX]) by reflexivity.
  cbn [Scanf.run Scanf.exec Num.skip_space].
  replace (isspace LF) with true by reflexivity.
  assert (Hskip : Num.skip_space
                    (field (d :: ds) fs
                       ++ "L"%char :: "B"%char :: CR :: LF :: "S"%char
                       :: s1 :: s2 :: [CR; ETX])
                  = field (d :: ds) fs
                      ++ "L"%char :: "B"%char :: CR :: LF :: "S"%char
                      :: s1 :: s2 :: [CR; ETX]).
  { unfold field. cbn [app Num.skip_space].
    now rewrite (digit_not_space d Hd). }
  rewrite Hskip, Hconv.
  apply run_after_weight; assumption.
Qed.

Lemma decode_value_frame d ds fs s1 s2 :
  isdigit d = true -> digits ds -> digits fs ->
  isdigit s1 = true -> isdigit s2 = true ->
  decode (value_frame (field (d :: ds) fs) [s1; s2])
  = (Value (Num.fvalue (field_acc d ds fs)) (status_val s1 s2), []).
Proof.
  intros Hd Hds Hfs H1 H2.
  unfold decode, scan_response, fscanf, just. cbn [fp unread].
  rewrite scanf_value_frame by assumption.
  reflexivity.
Qed.

End Decode.

(* ===================================================================== *)
(** * The retry loop of [scale_read] *)
(* ===================================================================== *)

Module Session.
Import Scale Frame Decode.

(** The state after [k] queries that were each answered by a frame read
    to its end. *)
Fixpoint queried (k : nat) (st : state) : state :=
  match k with
  | O => st
  | S k' => queried k' (sent [] st)
  end.

(** The replies [from], ..., [from + k - 1] of the scale are status-only
    frames with a two-digit status. *)
Definition status_only_for (dev : device) (from k : nat) : Prop :=
  forall i, (i < k)%nat ->
    exists s1 s2, isdigit s1 = true /\ isdigit s2 = true
                  /\ dev (from + i)%nat = Reply (status_frame [s1; s2]).

(** A scale that reports "weight not stable" for ever. *)
Definition in_motion : device := fun _ => Reply (status_frame (str "10")).

(** A scale that answers with each of [frames] in turn, then falls
    silent. *)
Definition replies (frames : list (list ascii)) : device :=
  fun n => Reply (nth n frames []).

Lemma queried_unread k : forall st,
  unread (fp st) = [] -> unread (fp (queried k st)) = [].
Proof. induction k; intros st H; [exact H | now apply IHk]. Qed.

Lemma queried_written k : forall st,
  length (written (fp (queried k st))) = (length (written (fp st)) + k)%nat.
Proof.
  induction k; intros st; cbn [queried]; [lia|].
  rewrite IHk. cbn [sent fp written]. rewrite List.length_app. simpl. lia.
Qed.

Lemma queried_cell k : forall st,
  wp (queried k st) = wp st /\ stores (queried k st) = stores st
  /\ errno (queried k st) = errno st.
Proof.
  induction k; intros st; cbn [queried]; [tauto|].
  destruct (IHk (sent [] st)) as (H1 & H2 & H3).
  rewrite H1, H2, H3. repeat split.
Qed.

(** A status-only frame sends [scale_read] back to [again], whatever the
    two status digits are. *)
Lemma scale_read_retry fuel dev st s1 s2 :
  unread (fp st) = [] ->
  isdigit s1 = true -> isdigit s2 = true ->
  dev (length (written (fp st))) = Reply (status_frame [s1; s2]) ->
  scale_read (S fuel) dev st = scale_read fuel dev (sent [] st).
Proof.
  intros Hu H1 H2 Hdev.
  rewrite (scale_read_step _ _ _ _ Hdev), Hu. cbn [app].
  now rewrite decode_status_frame.
Qed.

(** So does the frame of a zeroing error. *)
Lemma scale_read_zero_retry fuel dev st s1 s2 :
  unread (fp st) = [] ->
  isdigit s1 = true -> isdigit s2 = true ->
  dev (length (written (fp st))) = Reply (flag_frame "-" [s1; s2]) ->
  scale_read (S fuel) dev st = scale_read fuel dev (sent [] st).
Proof.
  intros Hu H1 H2 Hdev.
  rewrite (scale_read_step _ _ _ _ Hdev), Hu. cbn [app].
  now rewrite decode_zero_frame.
Qed.

Lemma scale_read_retries k : forall fuel dev st,
  unread (fp st) = [] ->
  status_only_for dev (length (written (fp st))) k ->
  scale_read (k + fuel) dev st = scale_read fuel dev (queried k st).
Proof.
  induction k as [|k IH]; intros fuel dev st Hu Hk; [reflexivity|].
  destruct (Hk 0%nat) as (s1 & s2 & H1 & H2 & Hdev); [lia|].
  rewrite Nat.add_0_r in Hdev.
  cbn [Nat.add queried].
  rewrite (scale_read_retry _ _ _ s1 s2 Hu H1 H2 Hdev).
  apply IH; [reflexivity|].
  intros i Hi. destruct (Hk (S i)) as (t1 & t2 & G1 & G2 & Gdev); [lia|].
  exists t1, t2. repeat split; try assumption.
  cbn [sent fp written]. rewrite List.length_app. cbn [length].
  rewrite <- Gdev. f_equal. lia.
Qed.

Lemma status_only_for_le dev from k j :
  (j <= k)%nat -> status_only_for dev from k -> status_only_for dev from j.
Proof. intros Hle H i Hi. apply H. lia. Qed.

Lemma in_motion_status_only from k : status_only_for in_motion from k.
Proof.
  intros i _. exists "1"%char, "0"%char. repeat split.
Qed.

(** Over and under capacity end [scale_read] at once with ERANGE. *)
Lemma scale_read_over_capacity fuel dev st s1 s2 :
  unread (fp st) = [] ->
  isdigit s1 = true -> isdigit s2 = true ->
  dev (length (written (fp st))) = Reply (flag_frame "^" [s1; s2]) ->
  scale_read (S fuel) dev st = Some (-1, set_errno ERANGE (sent [] st)).
Proof.
  intros Hu H1 H2 Hdev.
  rewrite (scale_read_step _ _ _ _ Hdev), Hu. cbn [app].
  now rewrite decode_over_frame.
Qed.

Lemma scale_read_under_capacity fuel dev st s1 s2 :
  unread (fp st) = [] ->
  isdigit s1 = true -> isdigit s2 = true ->
  dev (length (written (fp st))) = Reply (flag_frame "_" [s1; s2]) ->
  scale_read (S fuel) dev st = Some (-1, set_errno ERANGE (sent [] st)).
Proof.
  intros Hu H1 H2 Hdev.
  rewrite (scale_read_step _ _ _ _ Hdev), Hu. cbn [app].
  now rewrite decode_under_frame.
Qed.

(** Whatever the fourth call does match ends [scale_read] at once with
    EDOM. *)
Lemma scale_read_zeroing_error fuel dev st bytes s u :
  dev (length (written (fp st))) = Reply bytes ->
  decode (unread (fp st) ++ bytes) = (ZeroingError s, u) ->
  scale_read (S fuel) dev st = Some (-1, set_errno EDOM (sent u st)).
Proof.
  intros Hdev Hdec. now rewrite (scale_read_step _ _ _ _ Hdev), Hdec.
Qed.

(** A value frame ends [scale_read] with the weight, whatever its two
    status digits are. *)
Lemma scale_read_value fuel dev st d ds fs s1 s2 :
  unread (fp st) = [] ->
  isdigit d = true -> digits ds -> digits fs ->
  isdigit s1 = true -> isdigit s2 = true ->
  dev (length (written (fp st)))
  = Reply (value_frame (field (d :: ds) fs) [s1; s2]) ->
  scale_read (S fuel) dev st
  = Some (0, store_wp (Num.fvalue (field_acc d ds fs)) (sent [] st)).
Proof.
  intros Hu Hd Hds Hfs H1 H2 Hdev.
  rewrite (scale_read_step _ _ _ _ Hdev), Hu. cbn [app].
  now rewrite decode_value_frame.
Qed.

(** C2, as stated, fails: while the scale reports "weight not stable"
    [scale_read] returns nothing, however long it runs. *)
Lemma scale_read_in_motion_never_returns :
  ~ exists fuel r, scale_read fuel in_motion (start 0%Q) = Some r.
Proof.
  intros (fuel & r & H).
  pose proof (scale_read_retries fuel 0 in_motion (start 0%Q) eq_refl
                (in_motion_status_only _ _)) as Hk.
  rewrite Nat.add_0_r in Hk. rewrite Hk in H. discriminate H.
Qed.

(** C2, amended: [scale_read] retries without a cap.  After [k]
    status-only replies it has written [k] queries and is still running;
    it goes on from there as a first call would, and returns when a
    reply that is not status-only arrives (here a value frame, or a
    failed write).  No outcome of it is a timeout. *)
Theorem scale_read_retries_without_cap (k : nat) (dev : device) (st : state) :
  unread (fp st) = [] ->
  status_only_for dev (length (written (fp st))) k ->
  (forall fuel, (fuel <= k)%nat -> scale_read fuel dev st = None)
  /\ (forall fuel,
        scale_read (k + fuel) dev st = scale_read fuel dev (queried k st))
  /\ (forall d ds fs s1 s2,
        isdigit d = true -> digits ds -> digits fs ->
        isdigit s1 = true -> isdigit s2 = true ->
        dev (length (written (fp st)) + k)%nat
        = Reply (value_frame (field (d :: ds) fs) [s1; s2]) ->
        scale_read (k + 1) dev st
        = Some (0, store_wp (Num.fvalue (field_acc d ds fs))
                            (queried (S k) st)))
  /\ (forall e,
        dev (length (written (fp st)) + k)%nat = WriteError e ->
        scale_read (k + 1) dev st = Some (-1, set_errno e (queried k st))).
Proof.
  intros Hu Hk. repeat split.
  - intros fuel Hle.
    pose proof (scale_read_retries fuel 0 dev st Hu
                  (status_only_for_le _ _ _ _ Hle Hk)) as H.
    now rewrite Nat.add_0_r in H.
  - intros fuel. now apply scale_read_retries.
  - intros d ds fs s1 s2 Hd Hds Hfs H1 H2 Hdev.
    rewrite (scale_read_retries k 1 dev st Hu Hk).
    rewrite (scale_read_value 0 dev (queried k st) d ds fs s1 s2);
      try assumption.
    + do 2 f_equal. clear. revert st.
      induction k; intros st; [reflexivity|]. cbn [queried]. apply IHk.
    + now apply queried_unread.
    + now rewrite queried_written.
  - intros e Hdev.
    rewrite (scale_read_retries k 1 dev st Hu Hk).
    apply scale_read_write_error. now rewrite queried_written.
Qed.

Lemma scale_read_retries_without_cap_witness :
  (forall fuel, (fuel <= 3)%nat ->
     scale_read fuel
       (replies [status_frame (str "10"); status_frame (str "10");
                 status_frame (str "11");
                 value_frame (field (str "05") (str "125")) (str "00")])
       (start 0%Q) = None)
  /\ scale_read (3 + 1)
       (replies [status_frame (str "10"); status_frame (str "10");
                 status_frame (str "11");
                 value_frame (field (str "05") (str "125")) (str "00")])
       (start 0%Q)
     = Some (0, store_wp (Num.fvalue (field_acc "0" (str "5") (str "125")))
                         (queried 4 (start 0%Q))).
Proof.
  assert (Hk : status_only_for
                 (replies [status_frame (str "10"); status_frame (str "10");
                           status_frame (str "11");
                           value_frame (field (str "05") (str "125"))
                                       (str "00")])
                 (length (written (fp (start 0%Q)))) 3).
  { intros i Hi.
    destruct i as [|[|[|i]]]; [| | |lia].
    - exists "1"%char, "0"%char. repeat split.
    - exists "1"%char, "0"%char. repeat split.
    - exists "1"%char, "1"%char. repeat split. }
  destruct (scale_read_retries_without_cap 3 _ (start 0%Q) eq_refl Hk)
    as (H1 & _ & H3 & _).
  split; [exact H1|].
  apply (H3 "0"%char (str "5") (str "125") "0"%char "0"%char);
    try reflexivity; repeat constructor.
Defined.

(** C3, as stated, fails: a status-only frame with status 02 (over
    capacity) is retried like any other; the weight of the next frame
    is returned. *)
Lemma scale_read_retries_on_status_02 :
  scale_read 1 (replies [status_frame (str "02");
                         value_frame (str "05.125") (str "00")])
             (start 0%Q) = None
  /\ scale_read 2 (replies [status_frame (str "02");
                            value_frame (str "05.125") (str "00")])
                (start 0%Q)
     = Some (0, mkState (mkFILE [] [query; query]) 0 (41 # 8) 1).
Proof. split; vm_compute; reflexivity. Qed.

(** C3, amended: within one call a status-only frame is retried for
    every two-digit status, 10 and 11 or not: one more query is written
    and nothing else changes; no status-only frame makes [scale_read]
    return. *)
Theorem status_only_is_retried_for_every_status
        (fuel : nat) (dev : device) (st : state) (s1 s2 : ascii) :
  unread (fp st) = [] ->
  isdigit s1 = true -> isdigit s2 = true ->
  dev (length (written (fp st))) = Reply (status_frame [s1; s2]) ->
  decode (status_frame [s1; s2]) = (StatusOnly (status_val s1 s2), [])
  /\ scale_read 1 dev st = None
  /\ scale_read (S fuel) dev st = scale_read fuel dev (sent [] st).
Proof.
  intros Hu H1 H2 Hdev. repeat split.
  - now apply decode_status_frame.
  - now rewrite (scale_read_retry 0 dev st s1 s2 Hu H1 H2 Hdev).
  - now apply (scale_read_retry fuel dev st s1 s2).
Qed.

Lemma status_only_is_retried_for_every_status_witness :
  decode (status_frame (str "02")) = (StatusOnly (status_val "0" "2"), [])
  /\ scale_read 1 (replies [status_frame (str "02")]) (start 0%Q) = None
  /\ scale_read 5 (replies [status_frame (str "02")]) (start 0%Q)
     = scale_read 4 (replies [status_frame (str "02")])
                  (sent [] (start 0%Q)).
Proof.
  apply (status_only_is_retried_for_every_status
           4 (replies [status_frame (str "02")]) (start 0%Q) "0" "2");
    reflexivity.
Defined.

(** C7: the frame of a zeroing error does not end [scale_read] with EDOM.
    It is decoded as a status-only frame and retried: a scale that stays
    in zeroing error keeps [scale_read] running, and once a value frame
    follows, the call succeeds. *)
Theorem zeroing_error_frame_is_retried :
  decode (flag_frame "-" (str "00")) = (StatusOnly 0, [])
  /\ scale_read 1 (replies [flag_frame "-" (str "00")]) (start 0%Q) = None
  /\ scale_read 2 (replies [flag_frame "-" (str "00");
                            value_frame (str "05.125") (str "00")])
                (start 0%Q)
     = Some (0, mkState (mkFILE [] [query; query]) 0 (41 # 8) 1)
  /\ ~ exists fuel r,
         scale_read fuel (fun _ => Reply (flag_frame "-" (str "00")))
                    (start 0%Q) = Some r.
Proof.
  split; [vm_compute; reflexivity|].
  split; [vm_compute; reflexivity|].
  split; [vm_compute; reflexivity|].
  intros (fuel & r & H).
  assert (G : forall n st, unread (fp st) = [] ->
                scale_read n (fun _ => Reply (flag_frame "-" (str "00"))) st
                = None).
  { induction n as [|n IH]; intros st Hu; [reflexivity|].
    rewrite (scale_read_zero_retry n _ st "0" "0" Hu eq_refl eq_refl eq_refl).
    now apply IH. }
  rewrite G in H by reflexivity. discriminate H.
Qed.

End Session.

(* ===================================================================== *)
(** * What [scale_read] stores *)
(* ===================================================================== *)

Module Output.
Import Scale Frame Decode.







End Output.

(* ===================================================================== *)
(** * Value frames: [scale_read] against [query.c] *)
(* ===================================================================== *)

Module ValueFrame.
Import Scale Frame Decode.

Definition not_ETX (c : ascii) : Prop := eqc c ETX = false.

Lemma read_response_frame pre : forall size,
  Forall not_ETX pre -> (length pre < size)%nat ->
  Query.read_response (pre ++ [ETX]) size = Some (pre ++ [ETX]).
Proof.
  induction pre as [|c pre IH]; intros size Hpre Hlen.
  - destruct size; [simpl in Hlen; lia|]. reflexivity.
  - destruct size; [simpl in Hlen; lia|].
    inversion Hpre as [|? ? Hc Hpre']; subst.
    cbn [app Query.read_response]. rewrite Hc.
    rewrite IH; [reflexivity | assumption | simpl in Hlen; lia].
Qed.

Lemma field_not_ETX d ds fs :
  isdigit d = true -> digits ds -> digits fs ->
  Forall not_ETX (field (d :: ds) fs).
Proof.
  intros Hd Hds Hfs. unfold field.
  apply Forall_app; split; [|apply Forall_app; split].
  - constructor; [now apply digit_not_ETX|].
    eapply List.Forall_impl; [|exact Hds]. intros c. apply digit_not_ETX.
  - repeat constructor.
  - eapply List.Forall_impl; [|exact Hfs]. intros c. apply digit_not_ETX.
Qed.

(** [main] on a 16-byte value frame: the status decides first, the
    value is looked at afterwards. *)
Lemma main_value_frame F s1 s2 v :
  length F = 6%nat -> Forall not_ETX F ->
  isdigit s1 = true -> isdigit s2 = true ->
  Num.strtod (F ++ "L"%char :: "B"%char :: CR :: LF :: "S"%char
                :: s1 :: s2 :: [CR; ETX]) = (v, 6%nat) ->
  Query.main (value_frame F [s1; s2])
  = match Query.parse_status (LF :: "S"%char :: s1 :: s2 :: [CR; ETX]) with
    | None => Query.StatusParseError
    | Some (m, rc) => if rc <? 0 then Query.ScaleError m else Query.Printed v
    end.
Proof.
  intros HF Hne H1 H2 Hst.
  destruct F as [|a [|b [|c [|d [|e [|f [|g F]]]]]]]; try discriminate HF.
  clear HF. cbn [app] in Hst.
  assert (Hread :
    Query.read_response (value_frame [a; b; c; d; e; f] [s1; s2])
                        Query.sizeof_buf
    = Some (value_frame [a; b; c; d; e; f] [s1; s2])).
  { change (value_frame [a; b; c; d; e; f] [s1; s2])
      with ([LF; a; b; c; d; e; f; "L"%char; "B"%char; CR; LF; "S"%char;
             s1; s2; CR] ++ [ETX]).
    apply read_response_frame; [|unfold Query.sizeof_buf; simpl; lia].
    repeat match goal with
           | H : Forall _ (_ :: _) |- _ => inversion H; subst; clear H
           end.
    repeat constructor; try assumption; now apply digit_not_ETX. }
  unfold Query.main. rewrite Hread.
  change (value_frame [a; b; c; d; e; f] [s1; s2])
    with [LF; a; b; c; d; e; f; "L"%char; "B"%char; CR; LF; "S"%char;
          s1; s2; CR; ETX].
  unfold Query.status_portion.
  cbn [length Nat.eqb negb andb skipn].
  destruct (Query.parse_status [LF; "S"%char; s1; s2; CR; ETX])
    as [[m rc]|]; [|reflexivity].
  destruct (rc <? 0); [reflexivity|].
  unfold Query.parse_value. cbn [Query.at_ nth skipn].
  replace (Query.neqc LF LF) with false by reflexivity.
  replace (Query.neqc "L" "L") with false by reflexivity.
  replace (Query.neqc "B" "B") with false by reflexivity.
  replace (Query.neqc CR CR) with false by reflexivity.
  cbn [orb]. rewrite Hst. reflexivity.
Qed.

Lemma neqc_false a b : Query.neqc a b = false -> a = b.
Proof.
  unfold Query.neqc. intros H. apply eqc_eq.
  now destruct (eqc a b).
Qed.

(** [parse_value] succeeds exactly when the frame is laid out around a
    6-byte field and [strtod] consumes all 6 bytes. *)
Lemma parse_value_some buf w :
  Query.parse_value buf = Some w <->
  (Query.at_ buf 0 = LF /\ Query.at_ buf 7 = "L"%char
   /\ Query.at_ buf 8 = "B"%char /\ Query.at_ buf 9 = CR)
  /\ Num.strtod (skipn 1 buf) = (w, 6%nat).
Proof.
  unfold Query.parse_value. split.
  - destruct (Query.neqc (Query.at_ buf 0) LF) eqn:E0; [discriminate|].
    destruct (Query.neqc (Query.at_ buf 7) "L") eqn:E7; [discriminate|].
    destruct (Query.neqc (Query.at_ buf 8) "B") eqn:E8; [discriminate|].
    destruct (Query.neqc (Query.at_ buf 9) CR) eqn:E9; [discriminate|].
    cbn [orb].
    destruct (Num.strtod (skipn 1 buf)) as [weight consumed].
    destruct (Nat.eqb_spec (1 + consumed) 7) as [Hc | Hc]; [|discriminate].
    intros H; inversion H; subst.
    repeat split; try now apply neqc_false.
    f_equal. lia.
  - intros [(H0 & H7 & H8 & H9) Hst].
    rewrite H0, H7, H8, H9, Hst.
    reflexivity.
Qed.

Lemma main_printed fd w :
  Query.main fd = Query.Printed w ->
  exists buf, Query.read_response fd Query.sizeof_buf = Some buf
              /\ length buf = 16%nat
              /\ Query.parse_value buf = Some w.
Proof.
  unfold Query.main, Query.status_portion.
  destruct (Query.read_response fd Query.sizeof_buf) as [buf|];
    [|discriminate].
  destruct (Nat.eqb (length buf) 6) eqn:E6.
  - destruct (Query.parse_status buf) as [[m rc]|]; [|discriminate].
    destruct (rc <? 0); [discriminate|].
    destruct (Nat.eqb (length buf) 16) eqn:E16; [|discriminate].
    apply Nat.eqb_eq in E6, E16. lia.
  - destruct (Nat.eqb (length buf) 16) eqn:E16; [|discriminate].
    destruct (Query.parse_status (skipn 10 buf)) as [[m rc]|];
      [|discriminate].
    destruct (rc <? 0); [discriminate|]. cbn [negb].
    destruct (Query.parse_value buf) as [weight|] eqn:Hv; [|discriminate].
    intros H; inversion H; subst.
    exists buf. split; [reflexivity|]. split; [now apply Nat.eqb_eq|].
    assumption.
Qed.

(** C1, as stated, fails: [scale_read] decodes a value frame whose
    status is 10 as a weight, and returns it. *)
Lemma scale_read_ignores_the_status_of_a_value :
  decode (value_frame (str "05.125") (str "10")) = (Value (41 # 8) 10, [])
  /\ scale_read 1 (Session.replies [value_frame (str "05.125") (str "10")])
                (start 0%Q)
     = Some (0, mkState (mkFILE [] [query]) 0 (41 # 8) 1).
Proof. split; vm_compute; reflexivity. Qed.

(** C1, amended: for a value frame with the field [ds.fs] and two status
    digits, [scale_read] decodes the weight [ds.fs] and returns it for
    every status; [main] of [query.c], on the 16-byte frame, prints that
    weight exactly when the status is 00 or 20 and ends in a status or
    scale error otherwise. *)
Theorem value_frame_weight
        (d : ascii) (ds fs : list ascii) (s1 s2 : ascii) :
  isdigit d = true -> digits ds -> digits fs ->
  isdigit s1 = true -> isdigit s2 = true ->
  (exists w,
     (w == decimal (d :: ds) fs)%Q
     /\ decode (value_frame (field (d :: ds) fs) [s1; s2])
        = (Value w (status_val s1 s2), [])
     /\ (forall fuel dev st,
           unread (fp st) = [] ->
           dev (length (written (fp st)))
           = Reply (value_frame (field (d :: ds) fs) [s1; s2]) ->
           scale_read (S fuel) dev st = Some (0, store_wp w (sent [] st)))
     /\ (length (field (d :: ds) fs) = 6%nat ->
         (s1 = "0"%char \/ s1 = "2"%char) /\ s2 = "0"%char ->
         Query.main (value_frame (field (d :: ds) fs) [s1; s2])
         = Query.Printed w))
  /\ (length (field (d :: ds) fs) = 6%nat ->
      ~ ((s1 = "0"%char \/ s1 = "2"%char) /\ s2 = "0"%char) ->
      Query.main (value_frame (field (d :: ds) fs) [s1; s2])
      = Query.StatusParseError
      \/ exists m, Query.main (value_frame (field (d :: ds) fs) [s1; s2])
                   = Query.ScaleError m).
Proof.
  intros Hd Hds Hfs H1 H2.
  assert (Hmain : length (field (d :: ds) fs) = 6%nat ->
    Query.main (value_frame (field (d :: ds) fs) [s1; s2])
    = match Query.parse_status (LF :: "S"%char :: s1 :: s2 :: [CR; ETX]) with
      | None => Query.StatusParseError
      | Some (m, rc) =>
          if rc <? 0 then Query.ScaleError m
          else Query.Printed (Num.fvalue (field_acc d ds fs))
      end).
  { intros H6. apply main_value_frame; try assumption.
    - now apply field_not_ETX.
    - rewrite strtod_field by assumption. now rewrite H6. }
  split.
  - exists (Num.fvalue (field_acc d ds fs)). repeat split.
    + apply field_acc_value.
    + now apply decode_value_frame.
    + intros fuel dev st Hu Hdev.
      now apply (Session.scale_read_value fuel dev st d ds fs s1 s2).
    + intros H6 [[-> | ->] ->]; rewrite (Hmain H6); reflexivity.
  - intros H6 Hns. rewrite (Hmain H6). clear Hmain.
    digit_cases H1; digit_cases H2;
      first [ left; reflexivity
            | right; eexists; reflexivity
            | exfalso; apply Hns; auto ].
Qed.

Lemma value_frame_weight_witness :
  (exists w,
     (w == decimal (str "05") (str "125"))%Q
     /\ decode (value_frame (field (str "05") (str "125")) (str "20"))
        = (Value w (status_val "2" "0"), [])
     /\ (forall fuel dev st,
           unread (fp st) = [] ->
           dev (length (written (fp st)))
           = Reply (value_frame (field (str "05") (str "125")) (str "20")) ->
           scale_read (S fuel) dev st = Some (0, store_wp w (sent [] st)))
     /\ (length (field (str "05") (str "125")) = 6%nat ->
         ("2"%char = "0"%char \/ "2"%char = "2"%char)
         /\ "0"%char = "0"%char ->
         Query.main (value_frame (field (str "05") (str "125")) (str "20"))
         = Query.Printed w))
  /\ (length (field (str "05") (str "125")) = 6%nat ->
      ~ (("2"%char = "0"%char \/ "2"%char = "2"%char)
         /\ "0"%char = "0"%char) ->
      Query.main (value_frame (field (str "05") (str "125")) (str "20"))
      = Query.StatusParseError
      \/ exists m,
           Query.main (value_frame (field (str "05") (str "125")) (str "20"))
           = Query.ScaleError m).
Proof.
  apply (value_frame_weight "0" (str "5") (str "125") "2" "0");
    try reflexivity; repeat constructor.
Defined.

(** C8, as stated, fails: [scale_read] decodes a weight from a field of
    eight bytes and from a field of three, where the field of a value
    frame has six. *)
Lemma scale_read_accepts_any_field_width :
  decode (value_frame (str "005.1250") (str "00")) = (Value (41 # 8) 0, [])
  /\ decode (value_frame (str "5.5") (str "00")) = (Value (11 # 2) 0, [])
  /\ scale_read 1 (Session.replies [value_frame (str "5.5") (str "00")])
                (start 0%Q)
     = Some (0, mkState (mkFILE [] [query]) 0 (11 # 2) 1).
Proof. repeat split; vm_compute; reflexivity. Qed.

(** C8, amended: in [query.c], [parse_value] succeeds only when [strtod]
    consumes exactly the 6 bytes between the newline and "LB", and [main]
    prints a weight only then; [scale_read] puts no width on the field:
    [%f] takes the digits there are. *)
Theorem parse_value_needs_the_whole_field :
  (forall buf w,
     Query.parse_value buf = Some w ->
     Num.strtod (skipn 1 buf) = (w, 6%nat))
  /\ (forall buf,
        snd (Num.strtod (skipn 1 buf)) <> 6%nat ->
        Query.parse_value buf = None)
  /\ (forall fd w,
        Query.main fd = Query.Printed w ->
        exists buf, Query.read_response fd Query.sizeof_buf = Some buf
                    /\ length buf = 16%nat
                    /\ Num.strtod (skipn 1 buf) = (w, 6%nat))
  /\ (forall d ds fs s1 s2,
        isdigit d = true -> digits ds -> digits fs ->
        isdigit s1 = true -> isdigit s2 = true ->
        exists w, (w == decimal (d :: ds) fs)%Q
                  /\ decode (value_frame (field (d :: ds) fs) [s1; s2])
                     = (Value w (status_val s1 s2), [])).
Proof.
  repeat split.
  - intros buf w H. now apply parse_value_some in H.
  - intros buf Hne.
    destruct (Query.parse_value buf) as [w|] eqn:Hv; [|reflexivity].
    apply parse_value_some in Hv. destruct Hv as [_ Hst].
    rewrite Hst in Hne. now elim Hne.
  - intros fd w H.
    destruct (main_printed fd w H) as (buf & Hr & Hl & Hv).
    exists buf. repeat split; try assumption.
    now apply parse_value_some in Hv.
  - intros d ds fs s1 s2 Hd Hds Hfs H1 H2.
    exists (Num.fvalue (field_acc d ds fs)). split.
    + apply field_acc_value.
    + now apply decode_value_frame.
Qed.

Lemma parse_value_needs_the_whole_field_witness :
  Num.strtod (skipn 1 (value_frame (str "05.125") (str "00")))
  = ((41 # 8)%Q, 6%nat)
  /\ Query.parse_value (value_frame (str "5.125 ") (str "00")) = None
  /\ exists w, (w == decimal (str "005") (str "1250"))%Q
               /\ decode (value_frame (field (str "005") (str "1250"))
                                      (str "00"))
                  = (Value w (status_val "0" "0"), []).
Proof.
  destruct parse_value_needs_the_whole_field as (H1 & H2 & _ & H4).
  split; [|split].
  - apply H1. vm_compute. reflexivity.
  - apply H2. vm_compute. discriminate.
  - apply (H4 "0"%char (str "05") (str "1250") "0"%char "0"%char);
      try reflexivity; repeat constructor.
Defined.

End ValueFrame.

(* ===================================================================== *)
(** * The serial port: line settings and descriptors *)
(* ===================================================================== *)

Module PortFacts.
Import Port.










(** ** Descriptors and [errno] *)

Definition errno_of {A : Type} (a : answer A) : option Z :=
  match a with
  | Ok _ => None
  | Fail e => Some e
  end.

(** The [errno] of the first call that fails, the calls taken in order. *)
Fixpoint first_errno (calls : list (option Z)) : option Z :=
  match calls with
  | [] => None
  | Some e :: _ => Some e
  | None :: rest => first_errno rest
  end.

(** The calls of [scale_open], in order. *)
Definition open_calls (sys : system) : list (option Z) :=
  [errno_of (sys_open sys); errno_of (sys_tcgetattr sys);
   errno_of (sys_tcsetattr sys); errno_of (sys_tcflush sys)].

(** The calls of [scale_init] before [fdopen], in order. *)
Definition init_calls (sys : system) : list (option Z) :=
  [errno_of (sys_open sys); errno_of (sys_flock sys);
   errno_of (sys_tcgetattr sys); errno_of (sys_tcsetattr sys)].

Lemma remove_fd_head fd l : remove_fd fd (fd :: l) = l.
Proof. cbn [remove_fd]. now rewrite Nat.eqb_refl. Qed.

(** X2.  [scale_open] of query.c is all or nothing.  When one of [open],
    [tcgetattr], [tcsetattr], [tcflush] fails it returns -1, no
    descriptor is left open, and [errno] is that of the first call that
    failed, also when [close] fails in turn.  When all four succeed it
    returns the descriptor, open, with the line set up and flushed and
    [errno] untouched. *)
Theorem scale_open_all_or_nothing (sys : system) (w : world) :
  match first_errno (open_calls sys) with
  | Some e =>
      fst (scale_open sys w) = None
      /\ w_errno (snd (scale_open sys w)) = e
      /\ w_open (snd (scale_open sys w)) = w_open w
  | None =>
      exists fd tio,
        sys_open sys = Ok fd /\ sys_tcgetattr sys = Ok tio
        /\ scale_open sys w
           = (Some fd, mkWorld (w_errno w) (fd :: w_open w)
                               (Some (configure tio)) true (w_locked w))
  end.
Proof.
  unfold open_calls, scale_open, close.
  destruct (sys_open sys) as [fd | e]; cbn [errno_of first_errno];
    [|repeat split].
  destruct (sys_tcgetattr sys) as [tio | e]; cbn [errno_of first_errno].
  2: { destruct (sys_close sys); cbn; rewrite Nat.eqb_refl; repeat split. }
  destruct (sys_tcsetattr sys) as [[] | e]; cbn [errno_of first_errno].
  2: { destruct (sys_close sys); cbn; rewrite Nat.eqb_refl; repeat split. }
  destruct (sys_tcflush sys) as [[] | e]; cbn [errno_of first_errno].
  2: { destruct (sys_close sys); cbn; rewrite Nat.eqb_refl; repeat split. }
  exists fd, tio. repeat split.
Qed.

(** X3.  [scale_init] of scale.c.  When [open], [flock], [tcgetattr] or
    [tcsetattr] fails it returns NULL and no descriptor is left open;
    [errno] is that of the failed call, unless the descriptor was open
    and [close] fails too: then it is the one [close] set.  When the four
    succeed the line is set up; if [fdopen] then fails, NULL is returned
    and the descriptor stays open. *)
Theorem scale_init_result (sys : system) (w : world) :
  match first_errno (init_calls sys) with
  | Some e =>
      fst (scale_init sys w) = None
      /\ w_open (snd (scale_init sys w)) = w_open w
      /\ w_errno (snd (scale_init sys w))
         = match sys_open sys, sys_close sys with
           | Ok _, Fail e' => e'
           | _, _ => e
           end
  | None =>
      exists fd tio,
        sys_open sys = Ok fd /\ sys_tcgetattr sys = Ok tio
        /\ match sys_fdopen sys with
           | Ok _ =>
               scale_init sys w
               = (Some fd, mkWorld (w_errno w) (fd :: w_open w)
                                   (Some (configure tio)) (w_flushed w) true)
           | Fail e =>
               fst (scale_init sys w) = None
               /\ w_errno (snd (scale_init sys w)) = e
               /\ w_open (snd (scale_init sys w)) = fd :: w_open w
           end
  end.
Proof.
  unfold init_calls, scale_init, close.
  destruct (sys_open sys) as [fd | e]; cbn [errno_of first_errno];
    [|repeat split].
  destruct (sys_flock sys) as [[] | e]; cbn [errno_of first_errno].
  2: { destruct (sys_close sys); cbn; rewrite Nat.eqb_refl; repeat split. }
  destruct (sys_tcgetattr sys) as [tio | e]; cbn [errno_of first_errno].
  2: { destruct (sys_close sys); cbn; rewrite Nat.eqb_refl; repeat split. }
  destruct (sys_tcsetattr sys) as [[] | e]; cbn [errno_of first_errno].
  2: { destruct (sys_close sys); cbn; rewrite Nat.eqb_refl; repeat split. }
  exists fd, tio. destruct (sys_fdopen sys); repeat split.
Qed.

End PortFacts.

(* ===================================================================== *)
(** * query.c: reading and accepting a response *)
(* ===================================================================== *)

Module QueryFacts.
Import Scale Frame ValueFrame.

(** X4.  What [read_response] returns is the beginning of what the scale
    sent, never longer than [size]: either it ends with the first ETX, or
    it has no ETX and fills the buffer. *)
Theorem read_response_bounds (size : nat) :
  forall (fd buf : list ascii),
  Query.read_response fd size = Some buf ->
  (exists rest, fd = buf ++ rest)
  /\ (length buf <= size)%nat
  /\ ((exists pre, buf = pre ++ [ETX] /\ Forall not_ETX pre)
      \/ (length buf = size /\ Forall not_ETX buf)).
Proof.
  induction size as [|size IH]; intros fd buf H.
  - assert (Hb : buf = []) by (destruct fd; cbn in H; congruence).
    subst buf.
    split; [exists fd; reflexivity|]. split; [simpl; lia|].
    right. split; [reflexivity | constructor].
  - destruct fd as [|c r]; [discriminate|].
    cbn [Query.read_response] in H.
    destruct (eqc c ETX) eqn:Ec.
    + inversion H; subst. apply eqc_eq in Ec. subst c.
      split; [exists r; reflexivity|]. split; [simpl; lia|].
      left. exists []. split; [reflexivity | constructor].
    + destruct (Query.read_response r size) as [buf0|] eqn:Hr;
        [|discriminate].
      inversion H; subst.
      destruct (IH _ _ Hr) as ((rest & ->) & Hlen & Hshape).
      split; [exists rest; reflexivity|]. split; [simpl; lia|].
      destruct Hshape as [(pre & -> & Hpre) | (Hfull & Hno)].
      * left. exists (c :: pre). split; [reflexivity|].
        constructor; assumption.
      * right. split; [simpl; lia|]. constructor; assumption.
Qed.

Lemma read_response_bounds_witness :
  (exists rest,
     status_frame (str "10") ++ str "tail" = status_frame (str "10") ++ rest)
  /\ (length (status_frame (str "10")) <= 64)%nat
  /\ ((exists pre, status_frame (str "10") = pre ++ [ETX]
                   /\ Forall not_ETX pre)
      \/ (length (status_frame (str "10")) = 64%nat
          /\ Forall not_ETX (status_frame (str "10")))).
Proof.
  apply (read_response_bounds 64 (status_frame (str "10") ++ str "tail")).
  vm_compute. reflexivity.
Defined.


(** The 16 bytes [main] prints a weight for: newline, six bytes of
    weight, "LB", CR, newline, "S", status 00 or 20, CR, ETX. *)
Definition printable (buf : list ascii) : Prop :=
  length buf = 16%nat
  /\ Query.at_ buf 0 = LF /\ Query.at_ buf 7 = "L"%char
  /\ Query.at_ buf 8 = "B"%char /\ Query.at_ buf 9 = CR
  /\ Query.at_ buf 10 = LF /\ Query.at_ buf 11 = "S"%char
  /\ (Query.at_ buf 12 = "0"%char \/ Query.at_ buf 12 = "2"%char)
  /\ Query.at_ buf 13 = "0"%char
  /\ Query.at_ buf 14 = CR /\ Query.at_ buf 15 = ETX.

(** [parse_status] answers with a non-negative [rc] exactly for a status
    of 00 or 20 in a well-formed status portion. *)
Lemma parse_status_accepts s :
  (exists m rc, Query.parse_status s = Some (m, rc) /\ (rc <? 0) = false)
  <-> Query.at_ s 0 = LF /\ Query.at_ s 1 = "S"%char
      /\ (Query.at_ s 2 = "0"%char \/ Query.at_ s 2 = "2"%char)
      /\ Query.at_ s 3 = "0"%char
      /\ Query.at_ s 4 = CR /\ Query.at_ s 5 = ETX.
Proof.
  split.
  - intros (m & rc & H & Hrc).
    unfold Query.parse_status, Query.neqc in H.
    repeat match type of H with
           | context [eqc ?a ?b] =>
               let E := fresh "E" in
               destruct (eqc a b) eqn:E; cbn [andb orb negb] in H
           end;
      inversion H; subst; try discriminate Hrc;
      repeat match goal with
             | E : eqc _ _ = true |- _ => apply eqc_eq in E
             end;
      repeat split; auto.
  - intros (H0 & H1 & H2 & H3 & H4 & H5).
    unfold Query.parse_status. rewrite H0, H1, H3, H4, H5.
    destruct H2 as [-> | ->]; do 2 eexists; split; reflexivity.
Qed.

Lemma at_skipn buf n i :
  Query.at_ (skipn n buf) i = Query.at_ buf (n + i).
Proof. unfold Query.at_. apply nth_skipn. Qed.

(** X6.  [main] of query.c prints a weight exactly when the response is
    16 bytes laid out as a value frame with status 00 or 20, and [strtod]
    consumes all six bytes of the weight; the weight printed is the one
    [strtod] returns. *)
Theorem main_prints_iff (fd : list ascii) (w : Q) :
  Query.main fd = Query.Printed w
  <-> exists buf,
        Query.read_response fd Query.sizeof_buf = Some buf
        /\ printable buf
        /\ Num.strtod (skipn 1 buf) = (w, 6%nat).
Proof.
  split.
  - unfold Query.main, Query.status_portion.
    destruct (Query.read_response fd Query.sizeof_buf) as [buf|];
      [|discriminate].
    destruct (Nat.eqb (length buf) 6) eqn:E6.
    { destruct (Query.parse_status buf) as [[m rc]|]; [|discriminate].
      destruct (rc <? 0); [discriminate|].
      destruct (Nat.eqb (length buf) 16) eqn:E16; [|discriminate].
      apply Nat.eqb_eq in E6, E16. lia. }
    destruct (Nat.eqb (length buf) 16) eqn:E16; [|discriminate].
    destruct (Query.parse_status (skipn 10 buf)) as [[m rc]|] eqn:Hs;
      [|discriminate].
    destruct (rc <? 0) eqn:Hrc; [discriminate|]. cbn [negb].
    destruct (Query.parse_value buf) as [weight|] eqn:Hv; [|discriminate].
    intros H; inversion H; subst.
    apply parse_value_some in Hv. destruct Hv as [(V0 & V7 & V8 & V9) Hst].
    assert (Hacc : exists m rc, Query.parse_status (skipn 10 buf) = Some (m, rc)
                                /\ (rc <? 0) = false) by eauto.
    apply parse_status_accepts in Hacc.
    rewrite !at_skipn in Hacc. cbn [Nat.add] in Hacc.
    destruct Hacc as (S0 & S1 & S2 & S3 & S4 & S5).
    exists buf. split; [reflexivity|]. split; [|exact Hst].
    apply Nat.eqb_eq in E16. unfold printable. tauto.
  - intros (buf & Hread & Hp & Hst).
    destruct Hp as (Hlen & V0 & V7 & V8 & V9 & S0 & S1 & S2 & S3 & S4 & S5).
    unfold Query.main, Query.status_portion. rewrite Hread, Hlen.
    cbn [Nat.eqb].
    assert (Hacc : exists m rc, Query.parse_status (skipn 10 buf) = Some (m, rc)
                                /\ (rc <? 0) = false).
    { apply parse_status_accepts. rewrite !at_skipn. cbn [Nat.add]. tauto. }
    destruct Hacc as (m & rc & -> & ->). cbn [negb].
    assert (Hv : Query.parse_value buf = Some w).
    { apply parse_value_some. tauto. }
    now rewrite Hv.
Qed.

End QueryFacts.

(* ===================================================================== *)
(** * scale.c: what a call of [scale_read] does and does not do *)
(* ===================================================================== *)

Module ReaderFacts.
Import Scale Frame Decode.









Lemma skip_space_all s :
  Forall (fun c => isspace c = true) s -> Num.skip_space s = [].
Proof.
  induction 1 as [|c s Hc _ IH]; [reflexivity|].
  cbn [Num.skip_space]. now rewrite Hc.
Qed.

Lemma decode_blank s :
  Forall (fun c => isspace c = true) s -> decode s = (Unknown, []).
Proof.
  intros Hs.
  unfold decode, scan_response, fscanf, just. cbn [fp unread].
  unfold Scanf.scanf at 1. rewrite parse_fmt_value.
  cbn [Scanf.run Scanf.exec]. rewrite (skip_space_all s Hs).
  reflexivity.
Qed.

(** X10.  A scale that sends nothing, or white space only, makes
    [scale_read] return -1 with EPROTO after one query; nothing is left
    in the stream. *)
Theorem scale_read_blank_reply
        (fuel : nat) (dev : device) (st : state) (bytes : list ascii) :
  dev (length (written (fp st))) = Reply bytes ->
  Forall (fun c => isspace c = true) (unread (fp st) ++ bytes) ->
  scale_read (S fuel) dev st = Some (-1, set_errno EPROTO (sent [] st)).
Proof.
  intros Hdev Hs.
  rewrite (scale_read_step _ _ _ _ Hdev), (decode_blank _ Hs). reflexivity.
Qed.

Lemma scale_read_blank_reply_witness :
  scale_read 1 (Session.replies [[CR; LF]]) (start 0%Q)
  = Some (-1, set_errno EPROTO (sent [] (start 0%Q))).
Proof.
  apply (scale_read_blank_reply 0 (Session.replies [[CR; LF]]) (start 0%Q)
                                [CR; LF]).
  - reflexivity.
  - repeat constructor.
Defined.

(** ** What follows the status, and the sign of the weight *)

Lemma run_trailer a1 a2 s :
  exists rest,
    Scanf.run [Scanf.DSpace; Scanf.DLit ETX] [a2; a1] s = (2, [a1; a2], rest).
Proof.
  cbn [Scanf.run Scanf.exec].
  destruct (Num.skip_space s) as [|x r]; [eexists; reflexivity|].
  destruct (eqc x ETX); eexists; reflexivity.
Qed.

(** What is after the two status digits: nothing, or a byte that is not
    a digit. *)
Definition ends_status (tail : list ascii) : Prop :=
  match tail with
  | [] => True
  | c :: _ => isdigit c = false
  end.

Lemma conv_int_status s1 s2 tail :
  isdigit s1 = true -> isdigit s2 = true -> ends_status tail ->
  Scanf.conv_int (s1 :: s2 :: tail)
  = Scanf.Matched (Some (Scanf.AInt (status_val s1 s2))) tail.
Proof.
  intros H1 H2 Ht. unfold Scanf.conv_int. cbn [Num.skip_space].
  rewrite (digit_not_space s1 H1), (digit_not_sign s1 H1).
  cbn [Num.drun andb]. rewrite H1, H2.
  assert (Hv : 10 * (10 * 0 + digit_val s1) + digit_val s2 = status_val s1 s2)
    by (unfold status_val; lia).
  destruct tail as [|c t]; cbn [Num.drun].
  - now rewrite Hv.
  - cbn in Ht. rewrite Ht. now rewrite Hv.
Qed.

(** The directives of [fmt_value] after [%f], when anything may follow
    the status. *)
Lemma run_after_weight_any v s1 s2 tail :
  isdigit s1 = true -> isdigit s2 = true -> ends_status tail ->
  exists rest,
    Scanf.run [Scanf.DLit "L"; Scanf.DLit "B"; Scanf.DSpace; Scanf.DSpace;
               Scanf.DLit "S"; Scanf.DInt; Scanf.DSpace; Scanf.DLit ETX]
              [Scanf.AFloat v]
              ("L"%char :: "B"%char :: CR :: LF :: "S"%char
                 :: s1 :: s2 :: tail)
    = (2, [Scanf.AFloat v; Scanf.AInt (status_val s1 s2)], rest).
Proof.
  intros H1 H2 Ht.
  destruct (run_trailer (Scanf.AFloat v) (Scanf.AInt (status_val s1 s2)) tail)
    as [rest Hrest].
  exists rest. rewrite <- Hrest.
  change (Scanf.run
            [Scanf.DLit "L"; Scanf.DLit "B"; Scanf.DSpace; Scanf.DSpace;
             Scanf.DLit "S"; Scanf.DInt; Scanf.DSpace; Scanf.DLit ETX]
            [Scanf.AFloat v]
            ("L"%char :: "B"%char :: CR :: LF :: "S"%char :: s1 :: s2 :: tail))
    with (Scanf.run [Scanf.DInt; Scanf.DSpace; Scanf.DLit ETX]
                    [Scanf.AFloat v] (s1 :: s2 :: tail)).
  cbn [Scanf.run Scanf.exec].
  now rewrite (conv_int_status s1 s2 tail H1 H2 Ht).
Qed.

(** The automaton from the integer part on. *)
Lemma frun_from_int a ds fs rest :
  digits ds -> digits fs ->
  Num.frun Num.FInt a (ds ++ "."%char :: fs ++ "L"%char :: rest)
  = (Num.FFrac, fold_left Num.push_frac fs (fold_left Num.push_int ds a),
     "L"%char :: rest).
Proof.
  intros Hds Hfs. rewrite frun_int by assumption.
  cbn [Num.frun Num.fstep].
  replace (isdigit ".") with false by reflexivity.
  replace (is_point ".") with true by reflexivity.
  rewrite frun_frac by assumption. reflexivity.
Qed.

(** The accumulator after the field [-(d :: ds).fs]. *)
Definition minus_acc (d : ascii) (ds fs : list ascii) : Num.facc :=
  fold_left Num.push_frac fs
    (fold_left Num.push_int ds
       (Num.push_int (Num.set_neg Num.acc0 "-") d)).

Lemma minus_acc_value d ds fs :
  (Num.fvalue (minus_acc d ds fs) == - decimal (d :: ds) fs)%Q.
Proof.
  unfold minus_acc, Num.fvalue.
  rewrite push_frac_all, push_int_all. simpl Num.neg. simpl Num.mant.
  simpl Num.nfrac. simpl Num.eneg. simpl Num.expo.
  replace (is_minus "-") with true by reflexivity.
  rewrite Qred_correct. unfold decimal.
  rewrite digits_val_app.
  replace (digits_val 0 (d :: ds)) with (digits_val (10 * 0 + digit_val d) ds)
    by reflexivity.
  replace (0 - (0 + Z.of_nat (length fs))) with (- Z.of_nat (length fs)) by lia.
  rewrite Qpower_opp.
  rewrite <- Zpower_Qpower by lia.
  rewrite inject_Z_opp. unfold Qdiv. ring.
Qed.

Lemma conv_float_minus d ds fs rest :
  isdigit d = true -> digits ds -> digits fs ->
  Scanf.conv_float ("-"%char :: field (d :: ds) fs ++ "L"%char :: rest)
  = Scanf.Matched (Some (Scanf.AFloat (Num.fvalue (minus_acc d ds fs))))
                  ("L"%char :: rest).
Proof.
  intros Hd Hds Hfs. unfold Scanf.conv_float, field.
  cbn [app str list_ascii_of_string Num.skip_space].
  replace (isspace "-") with false by reflexivity.
  cbn [Num.frun Num.fstep].
  replace (is_sign "-") with true by reflexivity.
  cbn [Num.frun Num.fstep]. rewrite Hd.
  rewrite <- List.app_assoc. cbn [app].
  rewrite frun_from_int by assumption.
  reflexivity.
Qed.

Lemma decode_value_tail d ds fs s1 s2 tail :
  isdigit d = true -> digits ds -> digits fs ->
  isdigit s1 = true -> isdigit s2 = true -> ends_status tail ->
  exists rest,
    decode (LF :: field (d :: ds) fs ++ str "LB" ++ [CR; LF] ++ str "S"
               ++ [s1; s2] ++ tail)
    = (Value (Num.fvalue (field_acc d ds fs)) (status_val s1 s2), rest).
Proof.
  intros Hd Hds Hfs H1 H2 Ht.
  destruct (run_after_weight_any (Num.fvalue (field_acc d ds fs))
                                 s1 s2 tail H1 H2 Ht) as [rest Hrest].
  exists rest.
  assert (Hscan :
    Scanf.scanf fmt_value
      (LF :: field (d :: ds) fs ++ str "LB" ++ [CR; LF] ++ str "S"
          ++ [s1; s2] ++ tail)
    = (2, [Scanf.AFloat (Num.fvalue (field_acc d ds fs));
           Scanf.AInt (status_val s1 s2)], rest)).
  { rewrite <- Hrest.
    unfold Scanf.scanf. rewrite parse_fmt_value.
    pose proof (conv_float_field d ds fs
                  ("B"%char :: CR :: LF :: "S"%char :: s1 :: s2 :: tail)
                  Hd Hds Hfs) as Hconv.
    replace (LF :: field (d :: ds) fs ++ str "LB" ++ [CR; LF] ++ str "S"
                ++ [s1; s2] ++ tail)
      with (LF :: field (d :: ds) fs
               ++ "L"%char :: "B"%char :: CR :: LF :: "S"%char
               :: s1 :: s2 :: tail) by reflexivity.
    cbn [Scanf.run Scanf.exec Num.skip_space].
    replace (isspace LF) with true by reflexivity.
    assert (Hskip : Num.skip_space
                      (field (d :: ds) fs
                         ++ "L"%char :: "B"%char :: CR :: LF :: "S"%char
                         :: s1 :: s2 :: tail)
                    = field (d :: ds) fs
                        ++ "L"%char :: "B"%char :: CR :: LF :: "S"%char
                        :: s1 :: s2 :: tail).
    { unfold field. cbn [app Num.skip_space].
      now rewrite (digit_not_space d Hd). }
    rewrite Hskip, Hconv. reflexivity. }
  unfold decode, scan_response, fscanf, just. cbn [fp unread].
  rewrite Hscan. reflexivity.
Qed.

(** X11.  [scale_read] does not check what follows the status of a value
    frame: with the CR and the ETX missing or replaced by other bytes,
    the weight is decoded and returned all the same. *)
Theorem value_frame_trailer_is_not_checked
        (d : ascii) (ds fs : list ascii) (s1 s2 : ascii)
        (tail : list ascii) :
  isdigit d = true -> digits ds -> digits fs ->
  isdigit s1 = true -> isdigit s2 = true -> ends_status tail ->
  exists w rest,
    (w == decimal (d :: ds) fs)%Q
    /\ decode (LF :: field (d :: ds) fs ++ str "LB" ++ [CR; LF] ++ str "S"
                  ++ [s1; s2] ++ tail)
       = (Value w (status_val s1 s2), rest)
    /\ forall fuel dev st,
         unread (fp st) = [] ->
         dev (length (written (fp st)))
         = Reply (LF :: field (d :: ds) fs ++ str "LB" ++ [CR; LF] ++ str "S"
                     ++ [s1; s2] ++ tail) ->
         scale_read (S fuel) dev st = Some (0, store_wp w (sent rest st)).
Proof.
  intros Hd Hds Hfs H1 H2 Ht.
  destruct (decode_value_tail d ds fs s1 s2 tail Hd Hds Hfs H1 H2 Ht)
    as [rest Hrest].
  exists (Num.fvalue (field_acc d ds fs)), rest.
  split; [apply field_acc_value|]. split; [exact Hrest|].
  intros fuel dev st Hu Hdev.
  rewrite (scale_read_step _ _ _ _ Hdev), Hu, List.app_nil_l.
  now rewrite Hrest.
Qed.

Lemma value_frame_trailer_is_not_checked_witness :
  exists w rest,
    (w == decimal (str "05") (str "125"))%Q
    /\ decode (LF :: field (str "05") (str "125") ++ str "LB" ++ [CR; LF]
                  ++ str "S" ++ str "00" ++ str "garbage")
       = (Value w (status_val "0" "0"), rest)
    /\ forall fuel dev st,
         unread (fp st) = [] ->
         dev (length (written (fp st)))
         = Reply (LF :: field (str "05") (str "125") ++ str "LB" ++ [CR; LF]
                     ++ str "S" ++ str "00" ++ str "garbage") ->
         scale_read (S fuel) dev st = Some (0, store_wp w (sent rest st)).
Proof.
  apply (value_frame_trailer_is_not_checked
           "0" (str "5") (str "125") "0" "0" (str "garbage"));
    try reflexivity; repeat constructor.
Defined.

(** X12.  [scale_read] accepts a weight with a minus sign: the frame is
    decoded as a value and the negative weight is returned as it is. *)
Theorem negative_weight_is_returned
        (d : ascii) (ds fs : list ascii) (s1 s2 : ascii) :
  isdigit d = true -> digits ds -> digits fs ->
  isdigit s1 = true -> isdigit s2 = true ->
  exists w,
    (w == - decimal (d :: ds) fs)%Q
    /\ forall fuel dev st,
         unread (fp st) = [] ->
         dev (length (written (fp st)))
         = Reply (value_frame ("-"%char :: field (d :: ds) fs) [s1; s2]) ->
         scale_read (S fuel) dev st = Some (0, store_wp w (sent [] st)).
Proof.
  intros Hd Hds Hfs H1 H2.
  exists (Num.fvalue (minus_acc d ds fs)).
  split; [apply minus_acc_value|].
  intros fuel dev st Hu Hdev.
  rewrite (scale_read_step _ _ _ _ Hdev), Hu, List.app_nil_l.
  assert (Hdec : decode (value_frame ("-"%char :: field (d :: ds) fs) [s1; s2])
                 = (Value (Num.fvalue (minus_acc d ds fs)) (status_val s1 s2),
                    [])).
  { unfold decode, scan_response, fscanf, just. cbn [fp unread].
    assert (Hscan :
      Scanf.scanf fmt_value
        (value_frame ("-"%char :: field (d :: ds) fs) [s1; s2])
      = (2, [Scanf.AFloat (Num.fvalue (minus_acc d ds fs));
             Scanf.AInt (status_val s1 s2)], [])).
    { rewrite <- (run_after_weight (Num.fvalue (minus_acc d ds fs)) s1 s2 H1 H2).
      unfold Scanf.scanf. rewrite parse_fmt_value.
      pose proof (conv_float_minus d ds fs
                    ("B"%char :: CR :: LF :: "S"%char :: s1 :: s2 :: [CR; ETX])
                    Hd Hds Hfs) as Hconv.
      replace (value_frame ("-"%char :: field (d :: ds) fs) [s1; s2])
        with (LF :: "-"%char :: field (d :: ds) fs
                 ++ "L"%char :: "B"%char :: CR :: LF :: "S"%char
                 :: s1 :: s2 :: [CR; ETX]) by reflexivity.
      cbn [Scanf.run Scanf.exec Num.skip_space].
      replace (isspace LF) with true by reflexivity.
      replace (isspace "-") with false by reflexivity.
      rewrite Hconv. reflexivity. }
    rewrite Hscan. reflexivity. }
  now rewrite Hdec.
Qed.

Lemma negative_weight_is_returned_witness :
  exists w,
    (w == - decimal (str "0") (str "750"))%Q
    /\ forall fuel dev st,
         unread (fp st) = [] ->
         dev (length (written (fp st)))
         = Reply (value_frame ("-"%char :: field (str "0") (str "750"))
                              (str "00")) ->
         scale_read (S fuel) dev st = Some (0, store_wp w (sent [] st)).
Proof.
  apply (negative_weight_is_returned "0" [] (str "750") "0" "0");
    try reflexivity; repeat constructor.
Defined.

End ReaderFacts.

(* ===================================================================== *)
(** * pot.c: the log of the checker, the percentage, the configuration *)
(* ===================================================================== *)

Module PotMore.
Import Scale Pot PotFacts Config.

(** A log in which "off" comes only when allowed ([may_off]) and is then
    not allowed again before an "on"; every "on" carries a percentage
    that is not negative; an error ends the log. *)
Fixpoint orderly (may_off : bool) (log : list entry) : Prop :=
  match log with
  | [] => True
  | Msg MsgOff :: rest => may_off = true /\ orderly false rest
  | Msg (MsgOn p) :: rest => 0 <= p /\ orderly true rest
  | Err _ _ :: rest => rest = []
  end.

(** X13.  The log of [pot_checker]: two "off" are never logged without
    an "on" between them, and the first "off" needs a percentage that
    was not negative before; "on" is never logged with a negative
    percentage; the error of a failed [scale_read] is the last entry. *)
Theorem pot_checker_log_is_orderly (n fuel : nat) (dev : device) :
  forall (e : Z) (lbs : Q) (pot : pot_t) (log : list entry) (pot' : pot_t),
  pot_checker n fuel dev e lbs pot = Some (log, pot') ->
  orderly (0 <=? pct pot) log.
Proof.
  induction n as [|n IH]; intros e lbs pot log pot' H.
  - inversion H; subst. exact I.
  - cbn [pot_checker] in H.
    destruct (scale_read fuel dev (mkState (scale pot) e lbs 0))
      as [[r st]|]; [|discriminate].
    destruct (r <? 0).
    { inversion H; subst. reflexivity. }
    match type of H with
    | context [checker_pct ?p ?w] => destruct (checker_pct p w) as [q|]
    end; [|discriminate].
    match type of H with
    | context [pot_update ?p q] =>
        pose proof (pot_update_message p q) as Hm;
        pose proof (pot_update_pct p q) as Hp;
        destruct (pot_update p q) as [m pot2]
    end.
    cbn [fst snd pct] in Hm, Hp.
    match type of H with
    | context [pot_checker n fuel dev ?e' ?l' pot2] =>
        destruct (pot_checker n fuel dev e' l' pot2) as [[log0 pot3]|] eqn:Hrec
    end; [|discriminate].
    apply IH in Hrec. rewrite Hp in Hrec.
    inversion H; subst log pot'. clear H.
    destruct (Z.ltb_spec q 0), (Z.leb_spec 0 (pct pot)),
             (Z.leb_spec 0 q), (Z.leb_spec (pct pot) 0);
      cbn [andb] in Hm; subst m; cbn [orderly];
      try lia; try (split; [reflexivity || lia | exact Hrec]);
      try exact Hrec.
Qed.

Lemma pot_checker_log_is_orderly_witness :
  orderly (0 <=? pct (a_pot 4 0 0 5))
          [Msg (MsgOn 18); Err "scale_read" EPROTO].
Proof.
  apply (pot_checker_log_is_orderly
           3 4
           (fun n => match n with
                     | 0%nat | 1%nat =>
                         Reply (value_frame (str "00.750") (str "00"))
                     | _ => Reply []
                     end)
           0 0%Q (a_pot 4 0 0 5)
           [Msg (MsgOn 18); Err "scale_read" EPROTO]
           (mkPot "pot" "/dev/ttyUSB0"
                  (mkFILE [] [query; query; query]) 4 0 18 5)).
  vm_compute. reflexivity.
Defined.

(** X14.  Reporting the same percentage twice: the second [pot_update]
    logs nothing, except at 0, where it logs "on (0% full)" again. *)
Theorem pot_update_twice (pot : pot_t) (p : Z) :
  fst (pot_update (snd (pot_update pot p)) p)
  = if p =? 0 then Some (MsgOn 0) else None.
Proof.
  rewrite pot_update_message, pot_update_pct.
  destruct (Z.ltb_spec p 0), (Z.leb_spec 0 p), (Z.leb_spec p 0),
           (Z.eqb_spec p 0); cbn [andb]; try lia; try reflexivity.
  now subst.
Qed.

(** ** The percentage as a function of the weight *)









(** ** The configuration *)

(** X17.  [pot_init] looks at its five keys only: another key, whatever
    its value, changes nothing. *)
Theorem pot_init_ignores_other_keys
        (conf : gmap string string) (scale_init : string -> option FILE)
        (key value : string) :
  ~ In key required ->
  pot_init (Some (<[key := value]> conf)) scale_init
  = pot_init (Some conf) scale_init.
Proof.
  intros Hk. unfold pot_init, get_conf_str, get_conf_num.
  assert (Hne : forall k, In k required ->
                          <[key := value]> conf !! k = conf !! k).
  { intros k Hin. apply lookup_insert_ne. intros ->. contradiction. }
  rewrite !Hne by (simpl; tauto). reflexivity.
Qed.

Lemma pot_init_ignores_other_keys_witness :
  pot_init (Some (<[ "colour"%string := "black"%string ]> upside_down)) opens
  = pot_init (Some upside_down) opens.
Proof.
  apply (pot_init_ignores_other_keys upside_down opens "colour" "black").
  simpl. intros [H | [H | [H | [H | [H | []]]]]]; discriminate H.
Defined.

(** X18.  [pot_init] names the first key that is missing, in the order
    name, scale_device, full_lbs, empty_lbs, pct_err, whatever the keys
    after it and whether or not the scale could be opened. *)
Theorem pot_init_names_first_missing_key
        (conf : gmap string string) (scale_init : string -> option FILE)
        (before : list string) (key : string) (after : list string) :
  required = before ++ key :: after ->
  Forall (fun k => is_Some (conf !! k)) before ->
  conf !! key = None ->
  pot_init (Some conf) scale_init = MsgExit (key +:+ " undefined").
Proof.
  intros Hreq Hbefore Hkey.
  assert (Hsome : forall k, In k before -> exists s, conf !! k = Some s).
  { intros k Hin. rewrite Forall_forall in Hbefore.
    apply list_elem_of_In in Hin.
    destruct (Hbefore k Hin) as [s Hs]. eauto. }
  unfold required in Hreq.
  destruct before as [|k1 [|k2 [|k3 [|k4 [|k5 before]]]]];
    cbn [app] in Hreq; inversion Hreq; subst; clear Hreq;
    unfold pot_init, get_conf_str, get_conf_num.
  - now rewrite Hkey.
  - destruct (Hsome "name"%string) as [s1 ->]; [simpl; tauto|].
    cbn [bind]. now rewrite Hkey.
  - destruct (Hsome "name"%string) as [s1 ->]; [simpl; tauto|].
    destruct (Hsome "scale_device"%string) as [s2 ->]; [simpl; tauto|].
    cbn [bind]. now rewrite Hkey.
  - destruct (Hsome "name"%string) as [s1 ->]; [simpl; tauto|].
    destruct (Hsome "scale_device"%string) as [s2 ->]; [simpl; tauto|].
    destruct (Hsome "full_lbs"%string) as [s3 ->]; [simpl; tauto|].
    cbn [bind]. now rewrite Hkey.
  - destruct (Hsome "name"%string) as [s1 ->]; [simpl; tauto|].
    destruct (Hsome "scale_device"%string) as [s2 ->]; [simpl; tauto|].
    destruct (Hsome "full_lbs"%string) as [s3 ->]; [simpl; tauto|].
    destruct (Hsome "empty_lbs"%string) as [s4 ->]; [simpl; tauto|].
    cbn [bind]. now rewrite Hkey.
  - destruct before; discriminate.
Qed.

Lemma pot_init_names_first_missing_key_witness :
  pot_init (Some (delete "full_lbs"%string
                    (delete "pct_err"%string upside_down))) opens
  = MsgExit ("full_lbs" +:+ " undefined").
Proof.
  apply (pot_init_names_first_missing_key
           (delete "full_lbs"%string (delete "pct_err"%string upside_down))
           opens ["name"; "scale_device"]%string "full_lbs"%string
           ["empty_lbs"; "pct_err"]%string).
  - reflexivity.
  - repeat constructor; vm_compute; eauto.
  - vm_compute. reflexivity.
Defined.

(** A string [strtof] finds no number in: empty or white space only, or
    beginning, after white space, with a byte that is not a sign, a
    digit or a point (nor the first letter of INF or NAN). *)
Definition not_a_number (s : list ascii) : Prop :=
  match Num.skip_space s with
  | [] => True
  | c :: _ =>
      is_sign c = false /\ isdigit c = false /\ is_point c = false
      /\ eqc c "i" = false /\ eqc c "I" = false
      /\ eqc c "n" = false /\ eqc c "N" = false
  end.

(** X19.  [get_conf_num] does not check that the value is a number: a
    value [strtof] finds no number in is read as 0. *)
Theorem get_conf_num_reads_junk_as_zero
        (conf : gmap string string) (key value : string) :
  conf !! key = Some value ->
  not_a_number (str value) ->
  get_conf_num conf key = inr 0%Q.
Proof.
  intros Hkey Hnan. unfold get_conf_num. rewrite Hkey. f_equal.
  unfold Num.strtof, Num.strtod, not_a_number in *.
  destruct (Num.skip_space (str value)) as [|c r]; [reflexivity|].
  destruct Hnan as (H1 & H2 & H3 & _).
  cbn [Num.fbest Num.complete Num.fstep]. rewrite H1, H2, H3. reflexivity.
Qed.

Lemma get_conf_num_reads_junk_as_zero_witness :
  get_conf_num (<[ "full_lbs"%string := "four"%string ]> upside_down)
               "full_lbs" = inr 0%Q.
Proof.
  apply (get_conf_num_reads_junk_as_zero
           (<[ "full_lbs"%string := "four"%string ]> upside_down)
           "full_lbs" "four").
  - vm_compute. reflexivity.
  - vm_compute. repeat split.
Defined.

End PotMore.

(* ===================================================================== *)
(** * Padded weights and the band around empty *)
(* ===================================================================== *)

Module Edges.
Import Scale Pot PotFacts Frame Decode ValueFrame.

Lemma skip_space_pad k s :
  Num.skip_space (repeat " "%char k ++ s) = Num.skip_space s.
Proof. induction k as [|k IH]; [reflexivity | exact IH]. Qed.

(** [strtod] skips leading spaces and counts them in what it consumed. *)
Lemma strtod_pad k s :
  Num.skip_space s = s ->
  Num.strtod (repeat " "%char k ++ s)
  = match Num.strtod s with
    | (_, O) => (0%Q, O)
    | (v, n) => (v, (k + n)%nat)
    end.
Proof.
  intros Hs. unfold Num.strtod. rewrite skip_space_pad, Hs.
  rewrite List.length_app, repeat_length, Nat.sub_diag.
  replace (k + length s - length s)%nat with k by lia.
  destruct (Num.fbest Num.FStart Num.acc0 s 0 (0%Q, 0%nat)) as [v [|n]];
    reflexivity.
Qed.

(** X20.  "The decimal may move": [main] of query.c accepts a weight
    that is padded with spaces on the left to the six bytes of the
    field, and prints its value. *)
Theorem main_accepts_padded_weight
        (k : nat) (d : ascii) (ds fs : list ascii) (s1 : ascii) :
  isdigit d = true -> digits ds -> digits fs ->
  s1 = "0"%char \/ s1 = "2"%char ->
  length (repeat " "%char k ++ field (d :: ds) fs) = 6%nat ->
  exists w,
    (w == decimal (d :: ds) fs)%Q
    /\ Query.main (value_frame (repeat " "%char k ++ field (d :: ds) fs)
                               [s1; "0"%char])
       = Query.Printed w.
Proof.
  intros Hd Hds Hfs Hs1 Hlen.
  exists (Num.fvalue (field_acc d ds fs)).
  split; [apply field_acc_value|].
  rewrite (main_value_frame _ s1 "0" (Num.fvalue (field_acc d ds fs)) Hlen).
  - destruct Hs1 as [-> | ->]; reflexivity.
  - apply Forall_app. split; [|now apply field_not_ETX].
    apply Forall_forall. intros c Hc.
    apply list_elem_of_In, repeat_spec in Hc. now subst.
  - destruct Hs1 as [-> | ->]; reflexivity.
  - reflexivity.
  - rewrite <- List.app_assoc. rewrite strtod_pad.
    + rewrite strtod_field by assumption.
      rewrite List.length_app, repeat_length in Hlen.
      destruct (length (field (d :: ds) fs)) as [|n] eqn:En.
      * unfold field in En. simpl in En. discriminate.
      * now rewrite Hlen.
    + unfold field. cbn [app Num.skip_space].
      now rewrite (digit_not_space d Hd).
Qed.

Lemma main_accepts_padded_weight_witness :
  exists w,
    (w == decimal (str "5") (str "25"))%Q
    /\ Query.main (value_frame (repeat " "%char 2 ++ field (str "5") (str "25"))
                               (str "00"))
       = Query.Printed w.
Proof.
  apply (main_accepts_padded_weight 2 "5" [] (str "25") "0");
    try reflexivity; repeat constructor.
Defined.




End Edges.
